(** * Receipt wizard: login gate, rate limiter, image handler persistence and
    the session state machine.

    Shallow embedding of [library/user_db.py], [library/state.py],
    [library/handler.py], [library/utils.py] (persistence part),
    [library/schemas.py], [app/main.py] and [app/tools/process_image.py]. *)

From stdpp Require Import gmap strings list fin_maps.
From Stdlib Require Import ZArith Lia Floats.

Local Open Scope string_scope.

(** ** Python values shared by all modules *)

(** The exceptions the modelled code raises or lets through. *)
Inductive exn : Type :=
  | ValueError
  | TypeError
  | KeyError
  | IndexError
  | ValidationError
  | FileNotFoundError
  | FileExistsError
  | IsADirectoryError
  | OperationalError
  | AttributeError
  | ExternalError.

(** A call either returns a value or raises. *)
Inductive result (A : Type) : Type :=
  | Ok (a : A)
  | Raise (e : exn).
Arguments Ok {A} a.
Arguments Raise {A} e.

(** Code that reads and writes a store [S] (the file system, the session)
    and may raise: what was written before the exception stays written. *)
Definition M (S A : Type) : Type := S → result A * S.

Definition ret {S A : Type} (a : A) : M S A := λ s, (Ok a, s).

Definition raise {S A : Type} (e : exn) : M S A := λ s, (Raise e, s).

Definition bindM {S A B : Type} (m : M S A) (k : A → M S B) : M S B :=
  λ s, match m s with
       | (Ok a, s') => k a s'
       | (Raise e, s') => (Raise e, s')
       end.

Definition gets {S A : Type} (f : S → A) : M S A := λ s, (Ok (f s), s).

Definition modify {S : Type} (f : S → S) : M S unit := λ s, (Ok tt, f s).

(** A result computed without touching the store. *)
Definition lift_result {S A : Type} (r : result A) : M S A := λ s, (r, s).

Notation "'let*' x ':=' m 'in' k" := (bindM m (λ x, k))
  (at level 10, x name, m at level 100, k at level 200, only parsing).
Notation "m ;;; k" := (bindM m (λ _, k))
  (at level 100, k at level 200, right associativity, only parsing).

(** [bytes] objects. *)
Definition bytes : Type := list Byte.byte.

#[global] Instance exn_eq_dec : EqDecision exn.
Proof. solve_decision. Defined.

#[global] Instance byte_eq_dec : EqDecision Byte.byte.
Proof. intros a b. destruct (Byte.byte_eq_dec a b); [left | right]; done. Defined.

(** [str.encode()] and [bcrypt.checkpw] (which raises on a malformed hash)
    belong to the interpreter and to the bcrypt package. *)
Class Bcrypt : Type := {
  encode : string → bytes;
  checkpw : bytes → bytes → result bool
}.

(** ** library/user_db.py *)
Module UserDb.

(** A value read from a column of the credential table: sqlite hands back
    what was stored (a BLOB as [bytes], TEXT as [str], NULL as [None]). *)
Inductive dbval : Type :=
  | DbBytes (b : bytes)
  | DbStr (s : string)
  | DbNull.

(** One row of [SELECT username, hashed_password FROM ...]. *)
Definition row : Type := string * dbval.

(** The remote store: no [DATABASE_URL], a URL that cannot be connected
    to, or a reachable table [app_users]. *)
Inductive pg_env : Type :=
  | PgNoUrl
  | PgDown
  | PgUp (rows : list row).

(** The two credential backends as the process finds them: the local
    file [user.db] (absent, or its table [user]) and the remote store. *)
Record Backends : Type := {
  sqlite_db : option (list row);
  postgres_db : pg_env
}.

Definition check_sqlite_db_present (env : Backends) : bool :=
  match sqlite_db env with
  | Some _ => true
  | None => false
  end.

(** The loop [for user, hpw in cur.execute(...)]: the last matching row
    wins, [b""] when none matches. *)
Definition scan_rows (adapt : dbval → dbval) (username : string)
    (rows : list row) : dbval :=
  foldl (λ acc r, if String.eqb (fst r) username then adapt (snd r) else acc)
        (DbBytes []) rows.

Definition get_user_password_in_sqlite_db (env : Backends)
    (username : string) : result dbval :=
  match sqlite_db env with
  | Some rows => Ok (scan_rows (λ v, v) username rows)
  | None => Raise OperationalError
  end.

Definition check_postgresql_db_present (env : Backends) : bool :=
  match postgres_db env with
  | PgUp _ => true
  | PgNoUrl | PgDown => false
  end.

Record User : Type := {
  username : string;
  password : string
}.

(** [User.min_length]: the validator run on both fields. *)
Definition min_length (v : string) : result string :=
  if Nat.eqb (String.length v) 0 then Raise ValueError else Ok v.

(** [User(username=..., password=...)]: pydantic turns a validator's
    [ValueError] into a [ValidationError]. *)
Definition mk_User (u p : string) : result User :=
  match min_length u, min_length p with
  | Ok u', Ok p' => Ok {| username := u'; password := p' |}
  | _, _ => Raise ValidationError
  end.

Definition RATE_LIMIT_COUNT : Z := 1.
Definition RATE_LIMIT_WINDOW : Z := 60.

(** [datetime.datetime] and [datetime.timedelta], both at their
    microsecond resolution. *)
Definition datetime : Type := Z.
Definition timedelta : Type := Z.
Definition timedelta_seconds (s : Z) : timedelta := (s * 1000000)%Z.

Record Attempt : Type := {
  count : Z;
  last_time : datetime
}.

(** [RateLimiter.attempts]. *)
Abbreviation RateLimiter := (gmap string Attempt).

Definition RateLimiter_init : RateLimiter := ∅.

(** [RateLimiter.increment], with the clock reading [now] as input. *)
Definition increment (now : datetime) (username : string)
    (self : RateLimiter) : RateLimiter :=
  match self !! username with
  | None => <[username := {| count := 1; last_time := now |}]> self
  | Some attempts =>
      let dt := (now - last_time attempts)%Z in
      let t_threshold := timedelta_seconds RATE_LIMIT_WINDOW in
      let attempts' :=
        if (t_threshold <? dt)%Z
        then {| count := 1; last_time := now |}
        else {| count := count attempts + 1; last_time := last_time attempts |} in
      <[username := attempts']> self
  end.

(** [RateLimiter.check_limit_exceeded]. *)
Definition check_limit_exceeded (now : datetime) (username : string)
    (self : RateLimiter) : result bool * RateLimiter :=
  let self' := increment now username self in
  match self' !! username with
  | None => (Raise KeyError, self')
  | Some attempts =>
      if (RATE_LIMIT_COUNT <? count attempts)%Z
      then (Ok true, self')
      else (Ok false, self')
  end.

(** What [check_is_legit_user] asks of the backends, in order. *)
Inductive db_event : Type :=
  | ProbeSqlite
  | QuerySqlite (username : string)
  | ProbePostgres
  | QueryPostgres (username : string).

Section WithBcrypt.
Context {bcrypt : Bcrypt}.

(** The postgres driver may hand the hash back as [str]; the loop
    encodes it. *)
Definition pg_adapt (hpw : dbval) : dbval :=
  match hpw with
  | DbStr s => DbBytes (encode s)
  | v => v
  end.

Definition get_user_password_in_postgresql_db (env : Backends)
    (username : string) : result dbval :=
  match postgres_db env with
  | PgNoUrl => Raise ValueError
  | PgDown => Raise OperationalError
  | PgUp rows => Ok (scan_rows pg_adapt username rows)
  end.

(** [retrieved_hashed_password == b"" or retrieved_hashed_password is None] *)
Definition is_empty_hash (v : dbval) : bool :=
  match v with
  | DbBytes [] => true
  | DbNull => true
  | _ => false
  end.

(** [bcrypt.checkpw(bytes_password, retrieved_hashed_password)]: only
    [bytes] are accepted as the hash. *)
Definition checkpw_val (pw : bytes) (v : dbval) : result bool :=
  match v with
  | DbBytes h => checkpw pw h
  | DbStr _ | DbNull => Raise TypeError
  end.

(** What one call of [check_is_legit_user] leaves behind. *)
Record outcome : Type := {
  returned : result bool;
  limiter : RateLimiter;
  db_trace : list db_event
}.

Definition verify (u : User) (rl : RateLimiter) (tr : list db_event)
    (retrieved : result dbval) : outcome :=
  match retrieved with
  | Raise e => {| returned := Raise e; limiter := rl; db_trace := tr |}
  | Ok retrieved_hashed_password =>
      if is_empty_hash retrieved_hashed_password
      then {| returned := Ok false; limiter := rl; db_trace := tr |}
      else
        let bytes_password := encode (password u) in
        {| returned := checkpw_val bytes_password retrieved_hashed_password;
           limiter := rl; db_trace := tr |}
  end.

(** [check_is_legit_user], on the module-level [rate_limiter]. *)
Definition check_is_legit_user (env : Backends) (now : datetime)
    (user : User) (rate_limiter : RateLimiter) : outcome :=
  match check_limit_exceeded now (username user) rate_limiter with
  | (Raise e, rl) => {| returned := Raise e; limiter := rl; db_trace := [] |}
  | (Ok true, rl) => {| returned := Ok false; limiter := rl; db_trace := [] |}
  | (Ok false, rl) =>
      if check_sqlite_db_present env then
        verify user rl [ProbeSqlite; QuerySqlite (username user)]
          (get_user_password_in_sqlite_db env (username user))
      else if check_postgresql_db_present env then
        verify user rl
          [ProbeSqlite; ProbePostgres; QueryPostgres (username user)]
          (get_user_password_in_postgresql_db env (username user))
      else
        {| returned := Ok false; limiter := rl;
           db_trace := [ProbeSqlite; ProbePostgres] |}
  end.

(** The hash the first available backend holds for a username. *)
Definition retrieved_hash (env : Backends) (name : string) : result dbval :=
  if check_sqlite_db_present env
  then get_user_password_in_sqlite_db env name
  else get_user_password_in_postgresql_db env name.

End WithBcrypt.

End UserDb.

(** ** pathlib and the file system *)
Module Fs.

(** A [Path] as its components; [[]] is the working directory. *)
Definition Path : Type := list string.

(** [path / name] for a one-component [name]. *)
Definition joinpath (p : Path) (name : string) : Path := (p ++ [name])%list.

Definition parent (p : Path) : Path := removelast p.

(** [path.name] *)
Definition name (p : Path) : string := List.last p "".

(** A record logged at level WARNING by the persistence code: the one of
    [save_image_as_jpg_file], "File ... already exists and overwrite=False,
    skipping creation." *)
Inductive log_record : Type :=
  | SkippingCreation (p : Path).

(** The directories and files on disk and, next to them, the warnings
    logged so far. *)
Record FS : Type := {
  dirs : gset Path;
  files : gmap Path bytes;
  warnings : list log_record
}.

Definition is_dir (p : Path) (fs : FS) : bool := bool_decide (p ∈ dirs fs).

Definition is_file (p : Path) (fs : FS) : bool :=
  match files fs !! p with
  | Some _ => true
  | None => false
  end.

(** [path.exists()] *)
Definition exists_ (p : Path) (fs : FS) : bool := is_dir p fs || is_file p fs.

(** No component of [p], [p] itself included, is a regular file. Opening or
    creating something below a regular file is [NotADirectoryError] for the
    operating system, which [mkdir], [write_file] and [read_file] below do
    not tell apart from a missing path; statements that name the exception
    of a missing path are made for paths with [no_file_on]. *)
Definition no_file_on (p : Path) (fs : FS) : bool :=
  forallb (λ n, negb (is_file (take n p) fs)) (seq 0 (S (length p))).

Definition add_dir (p : Path) (fs : FS) : FS :=
  {| dirs := {[p]} ∪ dirs fs; files := files fs; warnings := warnings fs |}.

Definition put_file (p : Path) (data : bytes) (fs : FS) : FS :=
  {| dirs := dirs fs; files := <[p := data]> (files fs);
     warnings := warnings fs |}.

Definition warned (r : log_record) (fs : FS) : FS :=
  {| dirs := dirs fs; files := files fs;
     warnings := (warnings fs ++ [r])%list |}.

(** [logger.warning(...)] *)
Definition logger_warning (r : log_record) : M FS unit :=
  λ fs, (Ok tt, warned r fs).

(** [path.mkdir()] with its defaults [parents=False, exist_ok=False]. *)
Definition mkdir (p : Path) : M FS unit :=
  λ fs,
    if exists_ p fs then (Raise FileExistsError, fs)
    else if negb (is_dir (parent p) fs) then (Raise FileNotFoundError, fs)
    else (Ok tt, add_dir p fs).

(** [with path.open("wb") as f: f.write(data)] and every library call
    that creates or truncates the file at [path]. *)
Definition write_file (p : Path) (data : bytes) : M FS unit :=
  λ fs,
    if is_dir p fs then (Raise IsADirectoryError, fs)
    else if negb (is_dir (parent p) fs) then (Raise FileNotFoundError, fs)
    else (Ok tt, put_file p data fs).

(** [with path.open("rb") as f: f.read()] *)
Definition read_file (p : Path) : M FS bytes :=
  λ fs,
    match files fs !! p with
    | Some data => (Ok data, fs)
    | None =>
        if is_dir p fs then (Raise IsADirectoryError, fs)
        else (Raise FileNotFoundError, fs)
    end.

(** A file system as the operating system keeps it: every file and every
    directory other than the top lies in a directory, and no path is both
    a file and a directory. *)
Definition fs_wf (fs : FS) : Prop :=
  map_Forall (λ p _, parent p ∈ dirs fs ∧ p ∉ dirs fs) (files fs) ∧
  set_Forall (λ d, parent d ∈ dirs fs) (dirs fs).

End Fs.

(** ** library/settings.py *)
Module Settings.
Import Fs.

Record StoredFileNames : Type := {
  original_image : string;
  rotated_image : string;
  cropped_image : string;
  edited_image : string;
  shop_info_json : string;
  shop_info_parquet : string;
  items_info_json : string;
  items_info_parquet : string
}.

(** [StoredFileNames()] *)
Definition StoredFileNames_default : StoredFileNames := {|
  original_image := "original-image.jpg";
  rotated_image := "rotated-image.jpg";
  cropped_image := "cropped-image.jpg";
  edited_image := "edited-image.jpg";
  shop_info_json := "shop-info.json";
  shop_info_parquet := "shop-info.parquet";
  items_info_json := "items-info.json";
  items_info_parquet := "items-info.parquet"
|}.

(** What the wizard reads from [Settings]: the directory
    [get_extraction_artifacts_dir()] answers. *)
Record Settings : Type := {
  extraction_artifacts_dir : Path
}.

Definition get_extraction_artifacts_dir (s : Settings) : Path :=
  extraction_artifacts_dir s.

End Settings.

(** ** Libraries the code calls into *)

(** A Python number: a field annotated [float] holds whatever was assigned. *)
Inductive number : Type :=
  | NumFloat (f : float)
  | NumInt (z : Z).

(** What [getattr] may find on a pydantic model instance. *)
Inductive pyval : Type :=
  | PyStr (s : string)
  | PyMethod
  | PyOther.

(** The interpreter and the packages under the code: [datetime], PIL,
    [hashlib], [base64] and the attribute namespace every pydantic model
    inherits from [BaseModel]. *)
Class Libs : Type := {
  PyDateTime : Type;
  PyDate : Type;
  PyTime : Type;
  (** [datetime.datetime.strptime(s, fmt)], [None] for its [ValueError] *)
  strptime : string → string → option PyDateTime;
  dt_date : PyDateTime → PyDate;
  dt_time : PyDateTime → PyTime;
  Image : Type;
  (** [Image.open] on the bytes of a file or of an upload *)
  pil_open : bytes → result Image;
  (** the bytes [image.save(path)] writes for a [.jpg] path *)
  pil_save : Image → result bytes;
  (** [image.rotate(angle, expand=True)] *)
  pil_rotate : Image → Z → Image;
  sha256_hexdigest : bytes → string;
  b64encode : bytes → string;
  (** attributes of [BaseModel] other than the ones the source names *)
  base_model_attr : string → option pyval
}.

(** ** library/schemas.py *)
Module Schemas.
Section WithLibs.
Context {libs : Libs}.

Record Shop : Type := {
  name : string;
  date_str : string;
  time_str : string;
  total : float
}.

(** [Shop.date] *)
Definition Shop_date (self : Shop) : option PyDate :=
  match strptime (date_str self) "%Y-%m-%d" with
  | Some date => Some (dt_date date)
  | None =>
      match strptime (date_str self) "%d.%m.%Y" with
      | Some date => Some (dt_date date)
      | None => None
      end
  end.

(** [Shop.time] *)
Definition Shop_time (self : Shop) : option PyTime :=
  match strptime (time_str self) "%H:%M" with
  | Some time => Some (dt_time time)
  | None =>
      match strptime (time_str self) "%H:%M:%S" with
      | Some time => Some (dt_time time)
      | None => None
      end
  end.

Inductive CategoryEnum : Type :=
  | fruits | vegetables | canned_good | dairy | meat | seafood | deli
  | spices | snacks | baked_good | beverages | pasta_rice_cereal
  | frozen_food | personal_care | health_care | household | baby | pet.

(** The [str] value of each member. *)
Definition CategoryEnum_value (c : CategoryEnum) : string :=
  match c with
  | fruits => "Fruits"
  | vegetables => "Vegetables"
  | canned_good => "Canned goods"
  | dairy => "Dairy"
  | meat => "Meat"
  | seafood => "Fish and seafood"
  | deli => "Deli"
  | spices => "Spices"
  | snacks => "Snacks"
  | baked_good => "Bread and baked goods"
  | beverages => "Beverages"
  | pasta_rice_cereal => "Pasta, rice and cereal"
  | frozen_food => "Frozen food"
  | personal_care => "Personal care"
  | health_care => "Health care"
  | household => "Household supplies"
  | baby => "Baby care items"
  | pet => "Pet care items"
  end.

Definition CategoryEnum_members : list CategoryEnum :=
  [fruits; vegetables; canned_good; dairy; meat; seafood; deli; spices;
   snacks; baked_good; beverages; pasta_rice_cereal; frozen_food;
   personal_care; health_care; household; baby; pet].

(** [CategoryEnum(value)]: the member with that value, if any. *)
Definition CategoryEnum_of_value (v : string) : option CategoryEnum :=
  List.find (λ c, String.eqb (CategoryEnum_value c) v) CategoryEnum_members.

Record Item : Type := {
  item_name : string;
  price : float;
  count : option Z;
  mass : option float;
  tax : option string;
  category : option CategoryEnum
}.

Record Receipt : Type := {
  shop : Shop;
  items : list Item
}.

(** A row under [POLARS_SHOP_SCHEMA]. *)
Record ShopRow : Type := {
  col_name : string;
  col_date : option PyDate;
  col_time : option PyTime;
  col_total : float;
  col_date_str : string;
  col_time_str : string
}.

(** A row under [POLARS_ITEM_SCHEMA]. *)
Record ItemRow : Type := {
  icol_name : string;
  icol_price : float;
  icol_count : option Z;
  icol_mass : option float;
  icol_tax : option string;
  icol_category : option string
}.

(** The two shapes of [pl.DataFrame] the code builds. *)
Inductive DataFrame : Type :=
  | ShopFrame (rows : list ShopRow)
  | ItemsFrame (rows : list ItemRow).

Definition convert_to_dataframe_shop (receipt : Receipt) : list ShopRow :=
  [ {| col_name := name (shop receipt);
       col_date := Shop_date (shop receipt);
       col_time := Shop_time (shop receipt);
       col_total := total (shop receipt);
       col_date_str := date_str (shop receipt);
       col_time_str := time_str (shop receipt) |} ].

(** [item.model_dump()] laid out under the item schema: the category
    goes in as its string value. *)
Definition model_dump_item (item : Item) : ItemRow :=
  {| icol_name := item_name item;
     icol_price := price item;
     icol_count := count item;
     icol_mass := mass item;
     icol_tax := tax item;
     icol_category := CategoryEnum_value <$> category item |}.

Definition convert_to_dataframe_items (receipt : Receipt) : list ItemRow :=
  model_dump_item <$> items receipt.

(** What a [pl.Int64] column can hold. *)
Definition fits_int64 (z : Z) : bool :=
  ((- 2 ^ 63 <=? z) && (z <? 2 ^ 63))%Z.

(** Every count of the receipt fits the [count] column of
    [POLARS_ITEM_SCHEMA]; [pl.from_dicts] refuses a Python [int] beyond it,
    which [convert_to_dataframe_items] above leaves out. *)
Definition counts_fit (receipt : Receipt) : bool :=
  forallb (λ item, match count item with
                   | Some z => fits_int64 z
                   | None => true
                   end) (items receipt).

(** [Shop] built from the keywords of [shop_dict]: the extra keys [date]
    and [time] are ignored. *)
Definition Shop_of_row (r : ShopRow) : Shop :=
  {| name := col_name r; date_str := col_date_str r;
     time_str := col_time_str r; total := col_total r |}.

(** [Item] built from the keywords of a row: an unknown category string
    fails validation. *)
Definition Item_of_row (r : ItemRow) : result Item :=
  match icol_category r with
  | None =>
      Ok {| item_name := icol_name r; price := icol_price r;
            count := icol_count r; mass := icol_mass r;
            tax := icol_tax r; category := None |}
  | Some v =>
      match CategoryEnum_of_value v with
      | Some c =>
          Ok {| item_name := icol_name r; price := icol_price r;
                count := icol_count r; mass := icol_mass r;
                tax := icol_tax r; category := Some c |}
      | None => Raise ValidationError
      end
  end.

Fixpoint Items_of_rows (rows : list ItemRow) : result (list Item) :=
  match rows with
  | [] => Ok []
  | r :: rows' =>
      match Item_of_row r with
      | Raise e => Raise e
      | Ok item =>
          match Items_of_rows rows' with
          | Raise e => Raise e
          | Ok items' => Ok (item :: items')
          end
      end
  end.

(** Whether [frame.to_dicts()[0]] exists. *)
Definition has_first_row (df : DataFrame) : bool :=
  match df with
  | ShopFrame (_ :: _) | ItemsFrame (_ :: _) => true
  | _ => false
  end.

Definition polars_info_dataframes_to_pydantic (shop items : DataFrame)
    : result Receipt :=
  if negb (has_first_row shop) then Raise IndexError
  else
    match shop with
    | ShopFrame (shop_dict :: _) =>
        match items with
        | ItemsFrame items_dict =>
            match Items_of_rows items_dict with
            | Ok its => Ok {| shop := Shop_of_row shop_dict; items := its |}
            | Raise e => Raise e
            end
        | ShopFrame [] =>
            Ok {| shop := Shop_of_row shop_dict; items := [] |}
        | ShopFrame (_ :: _) => Raise ValidationError
        end
    | _ => Raise ValidationError
    end.

End WithLibs.
End Schemas.

(** polars, on the frames of [Schemas]. *)
Class Polars {libs : Libs} : Type := {
  write_json : Schemas.DataFrame → bytes;
  write_parquet : Schemas.DataFrame → bytes;
  (** [pl.read_parquet] on the bytes of a file *)
  read_parquet : bytes → result Schemas.DataFrame
}.

(** ** library/utils.py (persistence part) and library/handler.py *)
Module Handler.
Import Fs Schemas.

Section WithLibs.
Context {libs : Libs} {polars : Polars}.

(** What reaches [save_image_as_jpg_file] as [image]. *)
Inductive image_arg : Type :=
  | ArgBytes (b : bytes)
  | ArgPIL (img : Image)
  | ArgOther.

(** [utils.save_image_as_jpg_file] *)
Definition save_image_as_jpg_file (image_path : Path) (image : image_arg)
    (overwrite mkdir : bool) : M FS unit :=
  let image_dir := parent image_path in
  let* dir_exists := gets (exists_ image_dir) in
  (if negb dir_exists && negb mkdir then raise FileNotFoundError
   else if negb dir_exists && mkdir then Fs.mkdir image_dir
   else ret tt) ;;;
  let* file_exists := gets (exists_ image_path) in
  if file_exists && negb overwrite then
    logger_warning (SkippingCreation image_path)
  else
    match image with
    | ArgBytes b => write_file image_path b
    | ArgPIL img =>
        let* data := lift_result (pil_save img) in
        write_file image_path data
    | ArgOther => raise TypeError
    end.

(** [utils.read_image_as_bytes] *)
Definition read_image_as_bytes (image_path : Path) : M FS bytes :=
  let* e := gets (exists_ image_path) in
  let* f := gets (is_file image_path) in
  if e && f then read_file image_path
  else raise FileNotFoundError.

Definition read_and_b64_encode_image (image_path : Path) : M FS string :=
  let* image_bytes := read_image_as_bytes image_path in
  ret (b64encode image_bytes).

Definition get_image_hash (image_bytes : bytes) : string :=
  sha256_hexdigest image_bytes.

(** [utils.get_image_dir_name] *)
Definition get_image_dir_name (settings : Settings.Settings)
    (image_hash original_file_name : string) : Path :=
  joinpath (Settings.get_extraction_artifacts_dir settings)
           (original_file_name ++ "-" ++ image_hash).

Record ImageHandler : Type := {
  target_directory : Path;
  original_image : Image;
  original_image_bytes : bytes;
  original_file_name : string;
  target_file_names : Settings.StoredFileNames;
  extracted_receipt_info : option Receipt;
  cropped : bool;
  rotated : bool;
  angle : number;
  edited_image : option Image
}.

(** The constructor call with the four required fields. *)
Definition mk_ImageHandler (dir : Path) (img : Image) (b : bytes)
    (file_name : string) : ImageHandler :=
  {| target_directory := dir;
     original_image := img;
     original_image_bytes := b;
     original_file_name := file_name;
     target_file_names := Settings.StoredFileNames_default;
     extracted_receipt_info := None;
     cropped := false;
     rotated := false;
     angle := NumFloat 0%float;
     edited_image := None |}.

Definition set_edited_image (v : option Image) (h : ImageHandler)
    : ImageHandler :=
  {| target_directory := target_directory h;
     original_image := original_image h;
     original_image_bytes := original_image_bytes h;
     original_file_name := original_file_name h;
     target_file_names := target_file_names h;
     extracted_receipt_info := extracted_receipt_info h;
     cropped := cropped h;
     rotated := rotated h;
     angle := angle h;
     edited_image := v |}.

Definition set_extracted_receipt_info (v : option Receipt)
    (h : ImageHandler) : ImageHandler :=
  {| target_directory := target_directory h;
     original_image := original_image h;
     original_image_bytes := original_image_bytes h;
     original_file_name := original_file_name h;
     target_file_names := target_file_names h;
     extracted_receipt_info := v;
     cropped := cropped h;
     rotated := rotated h;
     angle := angle h;
     edited_image := edited_image h |}.

Definition set_cropped (v : bool) (h : ImageHandler) : ImageHandler :=
  {| target_directory := target_directory h;
     original_image := original_image h;
     original_image_bytes := original_image_bytes h;
     original_file_name := original_file_name h;
     target_file_names := target_file_names h;
     extracted_receipt_info := extracted_receipt_info h;
     cropped := v;
     rotated := rotated h;
     angle := angle h;
     edited_image := edited_image h |}.

Definition set_rotated (v : bool) (h : ImageHandler) : ImageHandler :=
  {| target_directory := target_directory h;
     original_image := original_image h;
     original_image_bytes := original_image_bytes h;
     original_file_name := original_file_name h;
     target_file_names := target_file_names h;
     extracted_receipt_info := extracted_receipt_info h;
     cropped := cropped h;
     rotated := v;
     angle := angle h;
     edited_image := edited_image h |}.

Definition set_angle (v : number) (h : ImageHandler) : ImageHandler :=
  {| target_directory := target_directory h;
     original_image := original_image h;
     original_image_bytes := original_image_bytes h;
     original_file_name := original_file_name h;
     target_file_names := target_file_names h;
     extracted_receipt_info := extracted_receipt_info h;
     cropped := cropped h;
     rotated := rotated h;
     angle := v;
     edited_image := edited_image h |}.

(** The value of a declared field of [StoredFileNames], by name. *)
Definition field_value (names : Settings.StoredFileNames) (name : string)
    : option string :=
  if String.eqb name "original_image" then Some (Settings.original_image names)
  else if String.eqb name "rotated_image" then Some (Settings.rotated_image names)
  else if String.eqb name "cropped_image" then Some (Settings.cropped_image names)
  else if String.eqb name "edited_image" then Some (Settings.edited_image names)
  else if String.eqb name "shop_info_json" then Some (Settings.shop_info_json names)
  else if String.eqb name "shop_info_parquet" then Some (Settings.shop_info_parquet names)
  else if String.eqb name "items_info_json" then Some (Settings.items_info_json names)
  else if String.eqb name "items_info_parquet" then Some (Settings.items_info_parquet names)
  else None.

(** Attributes found on the class rather than among the fields:
    [model_dump_json] is the method [get_target_file_path] itself calls
    on [target_file_names]; the rest is [BaseModel]'s. *)
Definition class_attr (name : string) : option pyval :=
  if String.eqb name "model_dump_json" then Some PyMethod
  else base_model_attr name.

(** [getattr(names, name)], [None] for its [AttributeError]: the
    instance's fields first, then the class. *)
Definition py_getattr (names : Settings.StoredFileNames) (name : string)
    : option pyval :=
  match field_value names name with
  | Some s => Some (PyStr s)
  | None => class_attr name
  end.

Definition py_hasattr (names : Settings.StoredFileNames) (name : string)
    : bool :=
  match py_getattr names name with
  | Some _ => true
  | None => false
  end.

(** [ImageHandler.get_target_file_path]; [Path / x] is a [TypeError]
    unless [x] is a string. *)
Definition get_target_file_path (self : ImageHandler) (name : string)
    : result Path :=
  let is_missing := negb (py_hasattr (target_file_names self) name) in
  if is_missing then Raise ValueError
  else
    match py_getattr (target_file_names self) name with
    | Some (PyStr s) => Ok (joinpath (target_directory self) s)
    | Some _ => Raise TypeError
    | None => Raise AttributeError
    end.

(** [handler.save_dataframe] *)
Definition save_dataframe (df : DataFrame) (name : string)
    (json_path parquet_path : Path) (overwrite : bool) : M FS unit :=
  let* json_exists := gets (exists_ json_path) in
  (if negb json_exists || overwrite
   then write_file json_path (write_json df)
   else ret tt) ;;;
  let* parquet_exists := gets (exists_ parquet_path) in
  if negb parquet_exists || overwrite
  then write_file parquet_path (write_parquet df)
  else ret tt.

(** [handler.save_image] *)
Definition save_image (image : option Image) (name : string)
    (image_path : Path) (overwrite mkdir : bool) : M FS unit :=
  match image with
  | Some img => save_image_as_jpg_file image_path (ArgPIL img) overwrite mkdir
  | None => ret tt
  end.

Definition save_original_image (self : ImageHandler)
    (mkdir overwrite : bool) : M FS unit :=
  let* image_path := lift_result (get_target_file_path self "original_image") in
  save_image (Some (original_image self)) "original_image" image_path
             overwrite mkdir.

Definition save_edited_image (self : ImageHandler)
    (mkdir overwrite : bool) : M FS unit :=
  let* image_path := lift_result (get_target_file_path self "edited_image") in
  match edited_image self with
  | None => ret tt
  | Some img => save_image (Some img) "edited_image" image_path overwrite mkdir
  end.

Definition save_images (self : ImageHandler) (mkdir overwrite : bool)
    : M FS unit :=
  save_original_image self mkdir overwrite ;;;
  save_edited_image self mkdir overwrite.

(** [shop.with_columns(pl.lit(None).alias("time"))] *)
Definition with_null_time (r : ShopRow) : ShopRow :=
  {| col_name := col_name r; col_date := col_date r; col_time := None;
     col_total := col_total r; col_date_str := col_date_str r;
     col_time_str := col_time_str r |}.

Definition save_shop_info (self : ImageHandler) (overwrite : bool)
    : M FS unit :=
  match extracted_receipt_info self with
  | None => ret tt
  | Some info =>
      let shop := convert_to_dataframe_shop info in
      let shop := with_null_time <$> shop in
      let* json_path := lift_result (get_target_file_path self "shop_info_json") in
      let* parquet_path := lift_result (get_target_file_path self "shop_info_parquet") in
      save_dataframe (ShopFrame shop) "shop" json_path parquet_path overwrite
  end.

Definition save_items_info (self : ImageHandler) (overwrite : bool)
    : M FS unit :=
  match extracted_receipt_info self with
  | None => ret tt
  | Some info =>
      let items := convert_to_dataframe_items info in
      let* json_path := lift_result (get_target_file_path self "items_info_json") in
      let* parquet_path := lift_result (get_target_file_path self "items_info_parquet") in
      save_dataframe (ItemsFrame items) "items" json_path parquet_path overwrite
  end.

Definition save_receipt_info (self : ImageHandler) (overwrite : bool)
    : M FS unit :=
  save_shop_info self overwrite ;;;
  save_items_info self overwrite.

(** [ImageHandler.save] *)
Definition save (self : ImageHandler) (mkdir overwrite : bool) : M FS unit :=
  save_images self mkdir overwrite ;;;
  match extracted_receipt_info self with
  | Some _ => save_receipt_info self overwrite
  | None => ret tt
  end.

(** [Image.open(path)] *)
Definition Image_open (p : Path) : M FS Image :=
  let* data := read_file p in
  lift_result (pil_open data).

(** [pl.read_parquet(path)] *)
Definition pl_read_parquet (p : Path) : M FS DataFrame :=
  let* data := read_file p in
  lift_result (read_parquet data).

(** [handler.from_target_directory] *)
Definition from_target_directory (target_directory : Path)
    : M FS ImageHandler :=
  let file_names := Settings.StoredFileNames_default in
  let image_path := joinpath target_directory (Settings.original_image file_names) in
  let* image := Image_open image_path in
  let* image_bytes := read_file image_path in
  let handler :=
    mk_ImageHandler target_directory image image_bytes (Fs.name image_path) in
  let* edited_image_path := lift_result (get_target_file_path handler "edited_image") in
  let* edited_exists := gets (exists_ edited_image_path) in
  let* handler :=
    (if edited_exists
     then let* img := Image_open edited_image_path in
          ret (set_edited_image (Some img) handler)
     else ret handler) in
  let* shop_path := lift_result (get_target_file_path handler "shop_info_parquet") in
  let* shop_exists := gets (exists_ shop_path) in
  let* shop_df :=
    (if shop_exists
     then let* df := pl_read_parquet shop_path in ret (Some df)
     else ret None) in
  let* items_path := lift_result (get_target_file_path handler "items_info_parquet") in
  let* items_exists := gets (exists_ items_path) in
  let* items_df :=
    (if items_exists
     then let* df := pl_read_parquet items_path in ret (Some df)
     else ret None) in
  match shop_df, items_df with
  | Some shop_df, Some items_df =>
      let* info := lift_result (polars_info_dataframes_to_pydantic shop_df items_df) in
      ret (set_extracted_receipt_info (Some info) handler)
  | _, _ => ret handler
  end.

(** A streamlit [UploadedFile]: its [name] and [getvalue()]. *)
Record UploadedFile : Type := {
  upload_name : string;
  upload_value : bytes
}.

(** [handler.from_streamlit_uploaded_file] *)
Definition from_streamlit_uploaded_file (uploaded_file : UploadedFile)
    (settings : Settings.Settings) : M FS ImageHandler :=
  let image_bytes := upload_value uploaded_file in
  let image_hash := get_image_hash image_bytes in
  let original_file_name := upload_name uploaded_file in
  let target_directory :=
    get_image_dir_name settings image_hash original_file_name in
  let* dir_exists := gets (exists_ target_directory) in
  if dir_exists then from_target_directory target_directory
  else
    let* original_image := lift_result (pil_open image_bytes) in
    ret (mk_ImageHandler target_directory original_image image_bytes
                         original_file_name).

End WithLibs.
End Handler.

(** ** library/state.py *)
Module State.
Import Fs Schemas Handler.

Inductive States : Type :=
  | LOGIN | UPLOAD | ROTATE | CROP | EXTRACT | WRANGLE | SAVE | DONE.

#[global] Instance States_eq_dec : EqDecision States.
Proof. solve_decision. Defined.

(** What the pages show through [st.error], [st.info], [st.success], and
    the [st.rerun()] that ends a run. *)
Inductive ui_event : Type :=
  | StError (msg : string)
  | StInfo (msg : string)
  | StSuccess (msg : string)
  | StRerun.

Section WithLibs.
Context {libs : Libs} {polars : Polars}.

Record AppState : Type := {
  state : States;
  is_logged_in : bool;
  image_handler : option ImageHandler;
  username : option string
}.

(** [AppState()] *)
Definition AppState_init : AppState :=
  {| state := LOGIN; is_logged_in := false;
     image_handler := None; username := None |}.

Definition set_state (v : States) (a : AppState) : AppState :=
  {| state := v; is_logged_in := is_logged_in a;
     image_handler := image_handler a; username := username a |}.

Definition set_is_logged_in (v : bool) (a : AppState) : AppState :=
  {| state := state a; is_logged_in := v;
     image_handler := image_handler a; username := username a |}.

Definition set_image_handler (v : option ImageHandler) (a : AppState)
    : AppState :=
  {| state := state a; is_logged_in := is_logged_in a;
     image_handler := v; username := username a |}.

Definition set_username (v : option string) (a : AppState) : AppState :=
  {| state := state a; is_logged_in := is_logged_in a;
     image_handler := image_handler a; username := v |}.

(** Everything a run of the script reads and writes:
    [st.session_state] at its two keys [VAR_STATE] and [VAR_SETTINGS],
    the file system, the module-level [rate_limiter], and what was shown
    to the user and asked of the credential backends. *)
Record World : Type := {
  session_app_state : option AppState;
  session_settings : option Settings.Settings;
  fs : FS;
  rate_limiter : UserDb.RateLimiter;
  ui : list ui_event;
  db_log : list UserDb.db_event
}.

Definition with_app_state (v : option AppState) (w : World) : World :=
  {| session_app_state := v; session_settings := session_settings w;
     fs := fs w; rate_limiter := rate_limiter w; ui := ui w;
     db_log := db_log w |}.

Definition with_settings (v : option Settings.Settings) (w : World) : World :=
  {| session_app_state := session_app_state w; session_settings := v;
     fs := fs w; rate_limiter := rate_limiter w; ui := ui w;
     db_log := db_log w |}.

Definition with_fs (v : FS) (w : World) : World :=
  {| session_app_state := session_app_state w;
     session_settings := session_settings w;
     fs := v; rate_limiter := rate_limiter w; ui := ui w;
     db_log := db_log w |}.

Definition with_auth (rl : UserDb.RateLimiter) (tr : list UserDb.db_event)
    (w : World) : World :=
  {| session_app_state := session_app_state w;
     session_settings := session_settings w;
     fs := fs w; rate_limiter := rl; ui := ui w;
     db_log := (db_log w ++ tr)%list |}.

Definition show (e : ui_event) : M World unit :=
  modify (λ w,
    {| session_app_state := session_app_state w;
       session_settings := session_settings w;
       fs := fs w; rate_limiter := rate_limiter w;
       ui := (ui w ++ [e])%list; db_log := db_log w |}).

(** A file-system action run inside a page. *)
Definition on_fs {A : Type} (m : M FS A) : M World A :=
  λ w, match m (fs w) with
       | (r, fs') => (r, with_fs fs' w)
       end.

(** [get_app_state]: the session's one [AppState] object, created on
    first access. *)
Definition get_app_state : M World AppState :=
  λ w, match session_app_state w with
       | Some app_state => (Ok app_state, w)
       | None => (Ok AppState_init, with_app_state (Some AppState_init) w)
       end.

(** An attribute assignment on the object [get_app_state] handed out:
    the object is the one the session holds, so the session sees it at
    once. *)
Definition assign (f : AppState → AppState) : M World unit :=
  modify (λ w, with_app_state (f <$> session_app_state w) w).

(** An attribute assignment on [app_state.image_handler]. *)
Definition assign_handler (f : ImageHandler → ImageHandler) : M World unit :=
  assign (λ a, set_image_handler (f <$> image_handler a) a).

(** [set_app_state(app_state)] with the object [get_app_state] handed
    out: the key is bound to the object it already holds. *)
Definition set_app_state : M World unit :=
  modify (λ w, with_app_state (session_app_state w) w).

(** [get_settings] *)
Definition get_settings : M World Settings.Settings :=
  λ w, match session_settings w with
       | Some s => (Ok s, w)
       | None => (Raise KeyError, w)
       end.

(** [init_settings]; [load] stands for [Settings(...)] read from the
    configuration file and the environment, followed by
    [setup_logging]. *)
Definition init_settings (load : string → result Settings.Settings)
    (username : string) : M World unit :=
  λ w, match session_settings w with
       | Some _ => (Ok tt, w)
       | None =>
           match load username with
           | Ok settings => (Ok tt, with_settings (Some settings) w)
           | Raise e => (Raise e, w)
           end
       end.

Definition check_is_logged_in : M World bool :=
  let* app_state := get_app_state in
  ret (is_logged_in app_state).

Definition set_logging_in_state_if_not_logged_in : M World unit :=
  let* logged_in := check_is_logged_in in
  if logged_in then ret tt
  else
    let* app_state := get_app_state in
    assign (set_state LOGIN) ;;;
    set_app_state.

Definition identify_image_processing_state (handler : ImageHandler)
    : States :=
  match extracted_receipt_info handler with
  | Some _ => WRANGLE
  | None => ROTATE
  end.

End WithLibs.
End State.

(** ** app/main.py and app/tools/process_image.py *)
Module App.
Import Fs Schemas Handler State.

(** The pages [st.navigation] offers. *)
Inductive Page : Type :=
  | LoginPage | ProcessPage | CollectPage | LogoutPage.

Section WithLibs.
Context {bcrypt : Bcrypt} {libs : Libs} {polars : Polars}.

(** What one run of the script takes from outside: the page picked,
    the widget values, the clock, the credential backends, the
    configuration and the extraction service. *)
Record Inputs : Type := {
  page : Page;
  username_input : string;
  password_input : string;
  submit : bool;
  logout_pressed : bool;
  uploaded_file : option UploadedFile;
  is_done : bool;
  degrees : Z;
  st_cropper : Image → Image;
  anthropic_client : result unit;
  make_anthropic_request : string → result Receipt;
  edit_shop : list ShopRow → DataFrame;
  edit_items : list ItemRow → DataFrame;
  collect_files : FS → FS;
  now : UserDb.datetime;
  backends : UserDb.Backends;
  load_settings : string → result Settings.Settings
}.

(** [check_is_legit_user] on the process-wide rate limiter. *)
Definition check_is_legit_user (i : Inputs) (user : UserDb.User)
    : M World bool :=
  λ w,
    let o := UserDb.check_is_legit_user (backends i) (now i) user
               (rate_limiter w) in
    (UserDb.returned o, with_auth (UserDb.limiter o) (UserDb.db_trace o) w).

(** [do_login] *)
Definition do_login (i : Inputs) : M World unit :=
  let username := username_input i in
  let password := password_input i in
  if submit i then
    let* user :=
      (match UserDb.mk_User username password with
       | Ok user => ret (Some user)
       | Raise _ => show (StError "Login failed") ;;; ret None
       end) in
    init_settings (load_settings i) username ;;;
    match user with
    | Some user =>
        let* legit := check_is_legit_user i user in
        if legit then
          show (StInfo "Successfully logged in") ;;;
          let* app_state := get_app_state in
          assign (set_is_logged_in true) ;;;
          assign (set_state UPLOAD) ;;;
          assign (set_username (Some (UserDb.username user))) ;;;
          set_app_state ;;;
          show StRerun
        else
          show (StError "Login failed")
    | None => ret tt
    end
  else ret tt.

(** [do_logout] *)
Definition do_logout (i : Inputs) : M World unit :=
  if logout_pressed i then
    show (StInfo "Logging out") ;;;
    let* app_state := get_app_state in
    assign (set_is_logged_in false) ;;;
    assign (set_state LOGIN) ;;;
    set_app_state ;;;
    show StRerun
  else ret tt.

(** [do_upload_image] *)
Definition do_upload_image (i : Inputs) : M World unit :=
  let* app_state := get_app_state in
  match uploaded_file i with
  | Some uploaded_file =>
      if is_done i then
        let* settings := get_settings in
        let* receipt_handler :=
          on_fs (from_streamlit_uploaded_file uploaded_file settings) in
        on_fs (save receipt_handler true false) ;;;
        assign (set_image_handler (Some receipt_handler)) ;;;
        assign (set_state (identify_image_processing_state receipt_handler)) ;;;
        set_app_state ;;;
        show StRerun
      else ret tt
  | None => ret tt
  end.

(** The handler the session's [app_state] holds right now. *)
Definition current_handler : M World (option ImageHandler) :=
  gets (λ w, match session_app_state w with
             | Some a => image_handler a
             | None => None
             end).

(** [do_rotate] *)
Definition do_rotate (i : Inputs) : M World unit :=
  let* app_state := get_app_state in
  match image_handler app_state with
  | None => raise ValueError
  | Some handler =>
      let image := original_image handler in
      let image_rotated := pil_rotate image (360 - degrees i) in
      if is_done i then
        assign_handler (set_angle (NumInt (degrees i))) ;;;
        assign_handler (set_rotated true) ;;;
        assign_handler (set_edited_image (Some image_rotated)) ;;;
        assign (set_state CROP) ;;;
        let* handler := current_handler in
        match handler with
        | None => raise AttributeError
        | Some handler =>
            on_fs (save_edited_image handler false true) ;;;
            set_app_state ;;;
            show StRerun
        end
      else ret tt
  end.

(** [do_crop] *)
Definition do_crop (i : Inputs) : M World unit :=
  let* app_state := get_app_state in
  match image_handler app_state with
  | None => raise ValueError
  | Some handler =>
      match edited_image handler with
      | None => raise AttributeError
      | Some image =>
          let image_cropped := st_cropper i image in
          if is_done i then
            assign_handler (set_cropped true) ;;;
            assign_handler (set_edited_image (Some image_cropped)) ;;;
            assign (set_state EXTRACT) ;;;
            let* handler := current_handler in
            match handler with
            | None => raise AttributeError
            | Some handler =>
                on_fs (save_edited_image handler false true) ;;;
                set_app_state ;;;
                show StRerun
            end
          else ret tt
      end
  end.

(** [ImageHandler.edited_image_base64] *)
Definition edited_image_base64 (self : ImageHandler) : M FS string :=
  let* edited_image_path := lift_result (get_target_file_path self "edited_image") in
  read_and_b64_encode_image edited_image_path.

(** [do_extract] *)
Definition do_extract (i : Inputs) : M World unit :=
  let* app_state := get_app_state in
  match image_handler app_state with
  | None => raise ValueError
  | Some handler =>
      let* settings := get_settings in
      let* client := lift_result (anthropic_client i) in
      let* base64_image := on_fs (edited_image_base64 handler) in
      let* extracted_receipt_info :=
        lift_result (make_anthropic_request i base64_image) in
      show (StSuccess "Completed extraction") ;;;
      assign_handler (set_extracted_receipt_info (Some extracted_receipt_info)) ;;;
      let* handler := current_handler in
      match handler with
      | None => raise AttributeError
      | Some handler =>
          on_fs (save_receipt_info handler true) ;;;
          assign (set_state WRANGLE) ;;;
          set_app_state ;;;
          show StRerun
      end
  end.

(** [do_wrangle] *)
Definition do_wrangle (i : Inputs) : M World unit :=
  let* app_state := get_app_state in
  match image_handler app_state with
  | None => raise ValueError
  | Some handler =>
      match edited_image handler with
      | None => raise ValueError
      | Some _ =>
          match extracted_receipt_info handler with
          | None => raise ValueError
          | Some info =>
              let shop := convert_to_dataframe_shop info in
              let items := convert_to_dataframe_items info in
              let shop_pd := edit_shop i shop in
              let items_pd := edit_items i items in
              if is_done i then
                let* info' :=
                  lift_result (polars_info_dataframes_to_pydantic shop_pd items_pd) in
                assign_handler (set_extracted_receipt_info (Some info')) ;;;
                let* handler := current_handler in
                match handler with
                | None => raise AttributeError
                | Some handler =>
                    on_fs (save_receipt_info handler false) ;;;
                    assign (set_state DONE) ;;;
                    set_app_state ;;;
                    show StRerun
                end
              else ret tt
          end
      end
  end.

(** [do_done] *)
Definition do_done : M World unit :=
  let* app_state := get_app_state in
  assign (set_state UPLOAD) ;;;
  set_app_state ;;;
  show StRerun.

(** The body of the page [tools/process_image.py]. *)
Definition process_image (i : Inputs) : M World unit :=
  let* app_state := get_app_state in
  match state app_state with
  | UPLOAD => do_upload_image i
  | ROTATE => do_rotate i
  | CROP => do_crop i
  | EXTRACT => do_extract i
  | WRANGLE => do_wrangle i
  | DONE => do_done
  | LOGIN | SAVE => ret tt
  end.

(** The page [tools/collect_data.py]: it reads and writes files and
    leaves the session's [app_state] alone. *)
Definition collect_data (i : Inputs) : M World unit :=
  modify (λ w, with_fs (collect_files i (fs w)) w).

(** [main]: one run of the script. *)
Definition main (i : Inputs) : M World unit :=
  set_logging_in_state_if_not_logged_in ;;;
  let* app_state := get_app_state in
  if is_logged_in app_state then
    match page i with
    | LogoutPage => do_logout i
    | CollectPage => collect_data i
    | ProcessPage | LoginPage => process_image i
    end
  else do_login i.

(** One run of the script takes one world to the next. *)
Definition step (w w' : World) : Prop :=
  ∃ i : Inputs, snd (main i w) = w'.

(** A session starts with nothing under [VAR_STATE]. *)
Definition initial (w : World) : Prop := session_app_state w = None.

(** The worlds a session can be in. *)
Inductive reachable : World → Prop :=
  | reachable_initial w : initial w → reachable w
  | reachable_step w w' : reachable w → step w w' → reachable w'.

End WithLibs.
End App.

(** * Properties *)

(** ** The rate limiter and the credential check *)
Module UserDbFacts.
Import UserDb.
Local Open Scope Z_scope.

Lemma increment_lookup_fresh now u (rl : RateLimiter) :
  rl !! u = None →
  increment now u rl !! u = Some {| count := 1; last_time := now |}.
Proof. intros Hu. unfold increment. rewrite Hu. apply lookup_insert_eq. Qed.

Lemma increment_lookup_within now u (rl : RateLimiter) a :
  rl !! u = Some a →
  (now - last_time a ≤ timedelta_seconds RATE_LIMIT_WINDOW)%Z →
  increment now u rl !! u
    = Some {| count := count a + 1; last_time := last_time a |}.
Proof.
  intros Hu Hdt. unfold increment. rewrite Hu. cbn zeta.
  destruct (Z.ltb_spec (timedelta_seconds RATE_LIMIT_WINDOW) (now - last_time a));
    [lia |]. apply lookup_insert_eq.
Qed.

Lemma increment_lookup_after now u (rl : RateLimiter) a :
  rl !! u = Some a →
  (timedelta_seconds RATE_LIMIT_WINDOW < now - last_time a)%Z →
  increment now u rl !! u = Some {| count := 1; last_time := now |}.
Proof.
  intros Hu Hdt. unfold increment. rewrite Hu. cbn zeta.
  destruct (Z.ltb_spec (timedelta_seconds RATE_LIMIT_WINDOW) (now - last_time a));
    [| lia]. apply lookup_insert_eq.
Qed.

(** After [increment] the username always has a record, so the lookup in
    [check_limit_exceeded] cannot fail. *)
Lemma increment_lookup_some now u (rl : RateLimiter) :
  ∃ a, increment now u rl !! u = Some a.
Proof.
  unfold increment. destruct (rl !! u) as [a|]; cbn zeta;
    eexists; apply lookup_insert_eq.
Qed.

Lemma increment_lookup_other now u v (rl : RateLimiter) :
  u ≠ v → increment now u rl !! v = rl !! v.
Proof.
  intros Hne. unfold increment. destruct (rl !! u); cbn zeta;
    by rewrite lookup_insert_ne.
Qed.

Lemma check_limit_exceeded_snd now u (rl : RateLimiter) :
  snd (check_limit_exceeded now u rl) = increment now u rl.
Proof.
  unfold check_limit_exceeded. cbn zeta.
  destruct (increment now u rl !! u) as [a|]; [|done].
  by destruct (RATE_LIMIT_COUNT <? count a)%Z.
Qed.

Lemma check_limit_exceeded_fst now u (rl : RateLimiter) a :
  increment now u rl !! u = Some a →
  fst (check_limit_exceeded now u rl)
    = Ok (bool_decide (RATE_LIMIT_COUNT < count a)%Z).
Proof.
  intros Ha. unfold check_limit_exceeded. cbn zeta. rewrite Ha.
  destruct (Z.ltb_spec RATE_LIMIT_COUNT (count a)).
  - by rewrite bool_decide_eq_true_2.
  - rewrite bool_decide_eq_false_2; [done | lia].
Qed.

Lemma check_limit_exceeded_total now u (rl : RateLimiter) :
  ∃ b, check_limit_exceeded now u rl = (Ok b, increment now u rl).
Proof.
  destruct (increment_lookup_some now u rl) as [a Ha].
  exists (bool_decide (RATE_LIMIT_COUNT < count a)%Z).
  rewrite <- (check_limit_exceeded_fst _ _ _ _ Ha),
          <- (check_limit_exceeded_snd now u rl).
  by destruct (check_limit_exceeded now u rl).
Qed.

(** C2, as the code has it, at one input: a second attempt ten
    microseconds after the first raises the count and leaves [last_time]
    at the first attempt, not at the clock reading of the second. *)
Lemma increment_refresh_counterexample :
  let rl : RateLimiter := {[ "og" := {| count := 1; last_time := 0 |} ]} in
  (10 - 0 ≤ timedelta_seconds RATE_LIMIT_WINDOW)%Z ∧
  increment 10 "og" rl !! "og" = Some {| count := 2; last_time := 0 |} ∧
  increment 10 "og" rl !! "og" ≠ Some {| count := 2; last_time := 10 |}.
Proof.
  cbn zeta. split; [by vm_compute |].
  assert (Hl : increment 10 "og" ({[ "og" := {| count := 1; last_time := 0 |} ]} : RateLimiter) !! "og"
               = Some {| count := 2; last_time := 0 |}).
  { rewrite (increment_lookup_within 10 "og" _ {| count := 1; last_time := 0 |}).
    - done.
    - apply lookup_singleton_eq.
    - by vm_compute. }
  split; [exact Hl |]. rewrite Hl. intros [=].
Qed.

(** C2 (amended): for a username with an attempt record, [increment]
    within the 60-second window raises [count] by one and keeps
    [last_time] as it was, so the window stays anchored at the attempt
    that opened it; once more than 60 seconds have passed since
    [last_time], the record is reset to [count = 1] with
    [last_time = now]. No other username's record changes. *)
Theorem increment_existing_record now u (rl : RateLimiter) a :
  rl !! u = Some a →
  ((now - last_time a ≤ timedelta_seconds RATE_LIMIT_WINDOW)%Z →
     increment now u rl
       = <[u := {| count := count a + 1; last_time := last_time a |}]> rl) ∧
  ((timedelta_seconds RATE_LIMIT_WINDOW < now - last_time a)%Z →
     increment now u rl = <[u := {| count := 1; last_time := now |}]> rl) ∧
  timedelta_seconds RATE_LIMIT_WINDOW = 60000000%Z.
Proof.
  intros Hu. split; [| split; [| done]]; intros Hdt;
    unfold increment; rewrite Hu; cbn zeta;
    destruct (Z.ltb_spec (timedelta_seconds RATE_LIMIT_WINDOW) (now - last_time a));
    (done || lia).
Qed.

Lemma increment_existing_record_witness :
  let rl : RateLimiter := {[ "og" := {| count := 1; last_time := 0 |} ]} in
  increment 10 "og" rl = <["og" := {| count := 2; last_time := 0 |}]> rl ∧
  increment 60000001 "og" rl
    = <["og" := {| count := 1; last_time := 60000001 |}]> rl.
Proof.
  cbn zeta. split.
  - apply (increment_existing_record 10 "og" _ {| count := 1; last_time := 0 |});
      [apply lookup_singleton_eq | by vm_compute].
  - apply (increment_existing_record 60000001 "og" _ {| count := 1; last_time := 0 |});
      [apply lookup_singleton_eq | by vm_compute].
Defined.

Section WithBcrypt.
Context {bcrypt : Bcrypt}.

Lemma check_is_legit_user_exceeded env now user (rl : RateLimiter) :
  fst (check_limit_exceeded now (username user) rl) = Ok true →
  check_is_legit_user env now user rl
    = {| returned := Ok false;
         limiter := increment now (username user) rl;
         db_trace := [] |}.
Proof.
  intros Hx. unfold check_is_legit_user.
  destruct (check_limit_exceeded_total now (username user) rl) as [b Hb].
  rewrite Hb in Hx |- *. cbn in Hx. by simplify_eq.
Qed.

Lemma verify_true user rl tr retrieved :
  returned (verify user rl tr retrieved) = Ok true ↔
  ∃ h, retrieved = Ok (DbBytes h) ∧ h ≠ [] ∧
       checkpw (encode (password user)) h = Ok true.
Proof.
  unfold verify. split.
  - destruct retrieved as [[h|s|]|e]; cbn; try done.
    destruct h as [|b h]; cbn; [done |].
    intros Hc. exists (b :: h). done.
  - intros (h & -> & Hne & Hc). destruct h as [|b h]; [done |]. done.
Qed.

(** C3: [check_limit_exceeded] runs [increment] first and then answers
    whether the stored count is above [RATE_LIMIT_COUNT = 1]; for a
    username without a record the first call answers false and a second
    call within the 60-second window answers true; and when it answers
    true, [check_is_legit_user] returns false whatever the backends and
    the submitted password are. *)
Theorem check_limit_exceeded_threshold now u (rl : RateLimiter) :
  snd (check_limit_exceeded now u rl) = increment now u rl ∧
  (∃ a, snd (check_limit_exceeded now u rl) !! u = Some a ∧
        fst (check_limit_exceeded now u rl)
          = Ok (bool_decide (RATE_LIMIT_COUNT < count a))) ∧
  RATE_LIMIT_COUNT = 1 ∧
  (rl !! u = None →
     fst (check_limit_exceeded now u rl) = Ok false ∧
     ∀ now', now' - now ≤ timedelta_seconds RATE_LIMIT_WINDOW →
       fst (check_limit_exceeded now' u (snd (check_limit_exceeded now u rl)))
         = Ok true) ∧
  (∀ env user,
     username user = u →
     fst (check_limit_exceeded now u rl) = Ok true →
     returned (check_is_legit_user env now user rl) = Ok false).
Proof.
  split; [apply check_limit_exceeded_snd |].
  split.
  { destruct (increment_lookup_some now u rl) as [a Ha].
    exists a. rewrite check_limit_exceeded_snd. split; [done |].
    by apply check_limit_exceeded_fst. }
  split; [done |].
  split.
  - intros Hfresh.
    pose proof (increment_lookup_fresh now u rl Hfresh) as H1.
    split.
    + by rewrite (check_limit_exceeded_fst _ _ _ _ H1).
    + intros now' Hdt. rewrite check_limit_exceeded_snd.
      rewrite (check_limit_exceeded_fst now' u _
                 {| count := 1 + 1; last_time := now |}); [done |].
      by apply (increment_lookup_within now' u _ _ H1).
  - intros env user <- Hx.
    by rewrite check_is_legit_user_exceeded.
Qed.

(** C1: for a validated [User], [check_is_legit_user] returns true
    exactly when the rate limit is not exceeded, a backend is available
    (sqlite probed first, then postgresql), the hash the first available
    backend holds for the username is a non-empty byte string, and
    [bcrypt.checkpw] accepts the encoded password against it; with both
    backends unavailable it returns false. *)
Theorem check_is_legit_user_iff env now (rl : RateLimiter) name pw user :
  mk_User name pw = Ok user →
  (returned (check_is_legit_user env now user rl) = Ok true ↔
     fst (check_limit_exceeded now (username user) rl) = Ok false ∧
     (check_sqlite_db_present env || check_postgresql_db_present env) = true ∧
     ∃ h, retrieved_hash env (username user) = Ok (DbBytes h) ∧ h ≠ [] ∧
          checkpw (encode (password user)) h = Ok true) ∧
  (check_sqlite_db_present env = false →
   check_postgresql_db_present env = false →
   returned (check_is_legit_user env now user rl) = Ok false).
Proof.
  intros _. unfold check_is_legit_user, retrieved_hash.
  destruct (check_limit_exceeded_total now (username user) rl) as [b Hb].
  rewrite Hb. cbn [fst]. destruct b.
  { split; [| done]. split; [done |]. by intros [[=] _]. }
  destruct (check_sqlite_db_present env) eqn:Hs.
  { split; [| done]. cbn [orb]. rewrite verify_true.
    split; [intros Hh; by split_and! | by intros (_ & _ & Hh)]. }
  destruct (check_postgresql_db_present env) eqn:Hp.
  { split; [| done]. cbn [orb]. rewrite verify_true.
    split; [intros Hh; by split_and! | by intros (_ & _ & Hh)]. }
  split; [| done]. cbn. split; [done |]. by intros (_ & [=] & _).
Qed.

End WithBcrypt.

(** A stand-in for the bcrypt package: the "hash" of a password is the
    password. *)
Definition plain_bcrypt : Bcrypt :=
  {| encode := String.list_byte_of_string;
     checkpw := λ pw h, Ok (bool_decide (pw = h)) |}.

Definition og_backends : Backends :=
  {| sqlite_db := Some [("og", DbBytes (String.list_byte_of_string "secret"))];
     postgres_db := PgNoUrl |}.

Lemma check_limit_exceeded_threshold_witness :
  fst (check_limit_exceeded 0 "og" ∅) = Ok false ∧
  fst (check_limit_exceeded 10 "og" (snd (check_limit_exceeded 0 "og" ∅)))
    = Ok true ∧
  returned (check_is_legit_user (bcrypt := plain_bcrypt) og_backends 10
              {| username := "og"; password := "secret" |}
              {[ "og" := {| count := 1; last_time := 0 |} ]}) = Ok false.
Proof.
  destruct (check_limit_exceeded_threshold (bcrypt := plain_bcrypt) 0 "og" ∅)
    as (_ & _ & _ & Hfresh & _).
  destruct (Hfresh (lookup_empty _)) as [H1 H2].
  split; [exact H1 |]. split; [apply H2; by vm_compute |].
  destruct (check_limit_exceeded_threshold (bcrypt := plain_bcrypt) 10 "og"
              {[ "og" := {| count := 1; last_time := 0 |} ]})
    as (_ & _ & _ & _ & Hlegit).
  apply Hlegit; [reflexivity | by vm_compute].
Defined.

Lemma check_is_legit_user_iff_witness :
  returned (check_is_legit_user (bcrypt := plain_bcrypt) og_backends 0
              {| username := "og"; password := "secret" |} ∅) = Ok true.
Proof.
  apply (check_is_legit_user_iff (bcrypt := plain_bcrypt) og_backends 0 ∅
           "og" "secret" {| username := "og"; password := "secret" |});
    [reflexivity |].
  split; [by vm_compute |]. split; [reflexivity |].
  exists (String.list_byte_of_string "secret").
  split; [by vm_compute |]. split; [by vm_compute | by vm_compute].
Defined.

End UserDbFacts.

(** ** Paths and files *)
Module FsFacts.
Import Fs.

Lemma parent_joinpath p s : parent (joinpath p s) = p.
Proof. apply removelast_last. Qed.

Lemma name_joinpath p s : name (joinpath p s) = s.
Proof. apply last_last. Qed.

Lemma joinpath_inj p s t : joinpath p s = joinpath p t → s = t.
Proof. unfold joinpath. intros Heq. apply app_inv_head in Heq. by simplify_eq. Qed.

Lemma joinpath_ne_self p s : joinpath p s ≠ p.
Proof.
  unfold joinpath. intros Heq. apply (f_equal length) in Heq.
  rewrite length_app in Heq. cbn in Heq. lia.
Qed.

Lemma is_dir_true p fs : is_dir p fs = true ↔ p ∈ dirs fs.
Proof. unfold is_dir. by rewrite bool_decide_eq_true. Qed.

Lemma is_dir_false p fs : is_dir p fs = false ↔ p ∉ dirs fs.
Proof. unfold is_dir. by rewrite bool_decide_eq_false. Qed.

Lemma is_file_true p fs : is_file p fs = true ↔ is_Some (files fs !! p).
Proof.
  unfold is_file. destruct (files fs !! p); split; done || by intros [? ?].
Qed.

Lemma is_file_false p fs : is_file p fs = false ↔ files fs !! p = None.
Proof. unfold is_file. by destruct (files fs !! p). Qed.

Lemma is_dir_put_file q p data fs : is_dir q (put_file p data fs) = is_dir q fs.
Proof. done. Qed.

Lemma is_file_put_file_eq p data fs : is_file p (put_file p data fs) = true.
Proof. unfold is_file, put_file. cbn. by rewrite lookup_insert_eq. Qed.

Lemma is_file_put_file_ne q p data fs :
  p ≠ q → is_file q (put_file p data fs) = is_file q fs.
Proof. intros Hne. unfold is_file, put_file. cbn. by rewrite lookup_insert_ne. Qed.

Lemma is_file_add_dir q p fs : is_file q (add_dir p fs) = is_file q fs.
Proof. done. Qed.

Lemma is_dir_add_dir_eq p fs : is_dir p (add_dir p fs) = true.
Proof. apply is_dir_true. cbn. set_solver. Qed.

Lemma is_dir_add_dir_ne q p fs : p ≠ q → is_dir q (add_dir p fs) = is_dir q fs.
Proof.
  intros Hne. unfold is_dir, add_dir. cbn. apply bool_decide_ext.
  rewrite elem_of_union, elem_of_singleton.
  split; [intros [Heq | Hin]; [by subst | done] | by right].
Qed.

(** In a well-formed file system a file sits in a directory and is not
    one itself. *)
Lemma fs_wf_file fs p data :
  fs_wf fs → files fs !! p = Some data →
  is_dir (parent p) fs = true ∧ is_dir p fs = false ∧ exists_ p fs = true.
Proof.
  intros [Hf _] Hp. destruct (Hf p data Hp) as [Hpar Hnd].
  split; [by apply is_dir_true |]. split; [by apply is_dir_false |].
  unfold exists_. replace (is_file p fs) with true; [by rewrite orb_true_r |].
  symmetry. apply is_file_true. by eexists.
Qed.

(** Nothing exists below a path that does not exist. *)
Lemma fs_wf_below fs p s :
  fs_wf fs → exists_ p fs = false → exists_ (joinpath p s) fs = false.
Proof.
  intros [Hf Hd] Hp. unfold exists_ in *.
  apply orb_false_iff in Hp as [Hpd Hpf]. apply is_dir_false in Hpd.
  apply orb_false_iff. split.
  - apply is_dir_false. intros Hin. apply Hd in Hin.
    by rewrite parent_joinpath in Hin.
  - apply is_file_false. destruct (files fs !! joinpath p s) as [data|] eqn:Hl; [| done].
    destruct (Hf _ _ Hl) as [Hin _]. by rewrite parent_joinpath in Hin.
Qed.

(** Writing to a path that does not exist leaves the files that do. *)
Lemma write_file_keeps fs p data q old :
  files fs !! q = Some old → exists_ p fs = false →
  files (snd (write_file p data fs)) !! q = Some old.
Proof.
  intros Hq Hex. unfold write_file.
  destruct (is_dir p fs); [done |].
  destruct (is_dir (parent p) fs); [| done]. cbn.
  rewrite lookup_insert_ne; [done |]. intros ->.
  unfold exists_ in Hex. apply orb_false_iff in Hex as [_ Hf].
  apply is_file_false in Hf. congruence.
Qed.

End FsFacts.

(** ** Sample libraries and inputs *)
Module Sample.
Import Fs Schemas Handler.
Import Byte.

(** Stand-ins for the packages: an image is its bytes, nothing parses as
    a date. *)
Definition libs : Libs :=
  {| PyDateTime := unit; PyDate := unit; PyTime := unit;
     strptime := λ _ _, None;
     dt_date := λ d, d; dt_time := λ d, d;
     Image := bytes;
     pil_open := Ok; pil_save := Ok;
     pil_rotate := λ img _, img;
     sha256_hexdigest := λ _, "00";
     b64encode := String.string_of_list_byte;
     base_model_attr := λ _, None |}.

Definition receipt : Receipt :=
  {| shop := {| name := "Rewe"; date_str := "2021-05-13";
                time_str := "16:46"; total := 12.5%float |};
     items := [ {| item_name := "Mini Romanasalat"; price := 1.5%float;
                   count := Some 1%Z; mass := None; tax := Some "A";
                   category := Some vegetables |} ] |}.

Definition shop_frame : DataFrame (libs := libs) :=
  ShopFrame (with_null_time <$> convert_to_dataframe_shop receipt).

Definition items_frame : DataFrame (libs := libs) :=
  ItemsFrame (convert_to_dataframe_items receipt).

(** A stand-in for polars that knows the two frames of [receipt]. *)
Definition polars : Polars (libs := libs) :=
  {| write_json := λ df,
       match df with ShopFrame _ => [x7b] | ItemsFrame _ => [x5b] end;
     write_parquet := λ df,
       match df with ShopFrame _ => [x00] | ItemsFrame _ => [x01] end;
     read_parquet := λ b,
       match b with
       | [x00] => Ok shop_frame
       | [x01] => Ok items_frame
       | _ => Raise ExternalError
       end |}.

(** A data directory with three files already in it. *)
Definition disk : FS :=
  {| dirs := {[ []; ["data"] ]};
     files := {[ ["data"; "old.jpg"] := [x01];
                 ["data"; "old.json"] := [x02];
                 ["data"; "old.parquet"] := [x03] ]};
     warnings := [] |}.

(** A decoded picture. *)
Definition photo : @Image libs := [x09].

(** An upload of [test_image.jpg] with a receipt already extracted. *)
Definition handler : ImageHandler (libs := libs) :=
  set_extracted_receipt_info (Some receipt)
    (mk_ImageHandler (libs := libs)
                     ["data"; "test_image.jpg-00"] [xff; xd8] [xff; xd8]
                     "test_image.jpg").

End Sample.

(** ** Target paths and the overwrite policy *)
Module HandlerFacts.
Import Fs FsFacts Schemas Handler.

Section WithLibs.
Context {libs : Libs} {polars : Polars}.

(** The eight declared names resolve to the stored file names. *)
Lemma get_target_file_path_fields (h : ImageHandler) :
  let names := target_file_names h in
  let dir := target_directory h in
  get_target_file_path h "original_image" = Ok (joinpath dir (Settings.original_image names)) ∧
  get_target_file_path h "rotated_image" = Ok (joinpath dir (Settings.rotated_image names)) ∧
  get_target_file_path h "cropped_image" = Ok (joinpath dir (Settings.cropped_image names)) ∧
  get_target_file_path h "edited_image" = Ok (joinpath dir (Settings.edited_image names)) ∧
  get_target_file_path h "shop_info_json" = Ok (joinpath dir (Settings.shop_info_json names)) ∧
  get_target_file_path h "shop_info_parquet" = Ok (joinpath dir (Settings.shop_info_parquet names)) ∧
  get_target_file_path h "items_info_json" = Ok (joinpath dir (Settings.items_info_json names)) ∧
  get_target_file_path h "items_info_parquet" = Ok (joinpath dir (Settings.items_info_parquet names)).
Proof. cbn zeta. by split_and!. Qed.

(** A name that is neither a field nor an attribute of the class is
    rejected with [ValueError]. *)
Lemma get_target_file_path_unknown (h : ImageHandler) name :
  py_getattr (target_file_names h) name = None →
  get_target_file_path h name = Raise ValueError.
Proof.
  intros Hn. unfold get_target_file_path, py_hasattr. by rewrite Hn.
Qed.

(** C10, where the code leaves the claim: [model_dump_json] is not one of
    the eight names, yet [hasattr] finds it on [target_file_names] (it is
    the method the error branch itself calls), so the guard lets it
    through and [Path / method] raises [TypeError], not [ValueError]. *)
Theorem get_target_file_path_model_dump_json (h : ImageHandler) :
  field_value (target_file_names h) "model_dump_json" = None ∧
  py_hasattr (target_file_names h) "model_dump_json" = true ∧
  get_target_file_path h "model_dump_json" = Raise TypeError.
Proof. done. Qed.

Lemma save_image_as_jpg_file_skip fs p old image mkdir :
  fs_wf fs → files fs !! p = Some old →
  save_image_as_jpg_file p image false mkdir fs
    = (Ok tt, warned (SkippingCreation p) fs).
Proof.
  intros Hwf Hp.
  destruct (fs_wf_file fs p old Hwf Hp) as (Hpar & Hnd & Hex).
  unfold save_image_as_jpg_file, bindM, gets, ret. cbn zeta.
  unfold exists_ at 1 2. rewrite Hpar. cbn. by rewrite Hex.
Qed.

Lemma save_image_as_jpg_file_overwrite fs p old image data mkdir :
  fs_wf fs → files fs !! p = Some old →
  match image with
  | ArgBytes b => data = b
  | ArgPIL img => pil_save img = Ok data
  | ArgOther => False
  end →
  save_image_as_jpg_file p image true mkdir fs = (Ok tt, put_file p data fs).
Proof.
  intros Hwf Hp Himg.
  destruct (fs_wf_file fs p old Hwf Hp) as (Hpar & Hnd & Hex).
  unfold save_image_as_jpg_file, bindM, gets, ret. cbn zeta.
  unfold exists_ at 1 2. rewrite Hpar. cbn. rewrite Hex. cbn.
  destruct image as [b | img |]; [subst data | | done].
  - unfold write_file. by rewrite Hnd, Hpar.
  - unfold lift_result. rewrite Himg. unfold write_file.
    by rewrite Hnd, Hpar.
Qed.

Lemma save_dataframe_skip fs df name jp pp oldj oldp :
  files fs !! jp = Some oldj → files fs !! pp = Some oldp →
  save_dataframe df name jp pp false fs = (Ok tt, fs).
Proof.
  intros Hj Hp.
  assert (Hje : exists_ jp fs = true).
  { unfold exists_. replace (is_file jp fs) with true; [by rewrite orb_true_r |].
    symmetry. apply is_file_true. by eexists. }
  assert (Hpe : exists_ pp fs = true).
  { unfold exists_. replace (is_file pp fs) with true; [by rewrite orb_true_r |].
    symmetry. apply is_file_true. by eexists. }
  unfold save_dataframe, bindM, gets, ret. rewrite Hje. cbn. by rewrite Hpe.
Qed.

Lemma save_dataframe_overwrite fs df name jp pp oldj oldp :
  fs_wf fs → files fs !! jp = Some oldj → files fs !! pp = Some oldp →
  save_dataframe df name jp pp true fs
    = (Ok tt, put_file pp (write_parquet df) (put_file jp (write_json df) fs)).
Proof.
  intros Hwf Hj Hp.
  destruct (fs_wf_file fs jp oldj Hwf Hj) as (Hjpar & Hjnd & _).
  destruct (fs_wf_file fs pp oldp Hwf Hp) as (Hppar & Hpnd & _).
  unfold save_dataframe, bindM, gets, ret. rewrite orb_true_r.
  unfold write_file at 1. rewrite Hjnd, Hjpar. cbn [negb].
  rewrite orb_true_r. unfold write_file.
  by rewrite !is_dir_put_file, Hpnd, Hppar.
Qed.

(** With [overwrite=False] no call ever changes a file that is already
    there, whether its own target exists or not. *)
Lemma save_image_as_jpg_file_keeps fs p image mkdir q old :
  files fs !! q = Some old →
  files (snd (save_image_as_jpg_file p image false mkdir fs)) !! q = Some old.
Proof.
  intros Hq.
  unfold save_image_as_jpg_file, bindM, gets, ret, raise. cbn zeta.
  destruct (exists_ (parent p) fs) eqn:Hd; cbn.
  - destruct (exists_ p fs) eqn:Hex; cbn; [done |].
    destruct image as [b | img |]; cbn; [by apply write_file_keeps | | done].
    unfold lift_result. destruct (pil_save img); [by apply write_file_keeps | done].
  - destruct mkdir; cbn; [| done]. unfold mkdir. rewrite Hd.
    destruct (is_dir (parent (parent p)) fs); cbn; [| done].
    destruct (exists_ p (add_dir (parent p) fs)) eqn:Hex; cbn; [done |].
    destruct image as [b | img |]; cbn; [by apply write_file_keeps | | done].
    unfold lift_result. destruct (pil_save img); [by apply write_file_keeps | done].
Qed.

Lemma save_dataframe_keeps fs df name jp pp q old :
  files fs !! q = Some old →
  files (snd (save_dataframe df name jp pp false fs)) !! q = Some old.
Proof.
  intros Hq. unfold save_dataframe, bindM, gets, ret.
  destruct (exists_ jp fs) eqn:Hj; cbn.
  - destruct (exists_ pp fs) eqn:Hp; cbn; [done | by apply write_file_keeps].
  - pose proof (write_file_keeps fs jp (write_json df) q old Hq Hj) as H1.
    destruct (write_file jp (write_json df) fs) as [[[]|e] fs1]; cbn in *; [| done].
    destruct (exists_ pp fs1) eqn:Hp; cbn; [done | by apply write_file_keeps].
Qed.

(** C8 (amended): when the target file is already there, a persistence
    call with [overwrite=False] returns without raising and leaves
    directories and files as they were: [save_image_as_jpg_file] logs the
    skip as a warning, [save_dataframe] (both of its targets there) logs no
    warning; no such call changes any existing file; with [overwrite=True]
    the target is rewritten with the new contents. *)
Theorem overwrite_policy fs p jp pp old oldj oldp :
  fs_wf fs →
  files fs !! p = Some old →
  files fs !! jp = Some oldj →
  files fs !! pp = Some oldp →
  (∀ image mkdir,
     save_image_as_jpg_file p image false mkdir fs
       = (Ok tt, warned (SkippingCreation p) fs)) ∧
  files (warned (SkippingCreation p) fs) = files fs ∧
  dirs (warned (SkippingCreation p) fs) = dirs fs ∧
  (∀ df name, save_dataframe df name jp pp false fs = (Ok tt, fs)) ∧
  (∀ p' image mkdir,
     files (snd (save_image_as_jpg_file p' image false mkdir fs)) !! p
       = Some old) ∧
  (∀ df name jp' pp',
     files (snd (save_dataframe df name jp' pp' false fs)) !! p = Some old) ∧
  (∀ b mkdir,
     save_image_as_jpg_file p (ArgBytes b) true mkdir fs
       = (Ok tt, put_file p b fs)) ∧
  (∀ img data mkdir,
     pil_save img = Ok data →
     save_image_as_jpg_file p (ArgPIL img) true mkdir fs
       = (Ok tt, put_file p data fs)) ∧
  (∀ df name,
     save_dataframe df name jp pp true fs
       = (Ok tt, put_file pp (write_parquet df)
                   (put_file jp (write_json df) fs))).
Proof.
  intros Hwf Hp Hj Hpp. split_and!.
  - intros. by eapply save_image_as_jpg_file_skip.
  - done.
  - done.
  - intros. by eapply save_dataframe_skip.
  - intros. by apply save_image_as_jpg_file_keeps.
  - intros. by apply save_dataframe_keeps.
  - intros. by eapply save_image_as_jpg_file_overwrite.
  - intros. by eapply save_image_as_jpg_file_overwrite.
  - intros. by eapply save_dataframe_overwrite.
Qed.

End WithLibs.

Lemma sample_disk_wf : fs_wf Sample.disk.
Proof.
  split; apply (bool_decide_unpack _); by vm_compute.
Qed.

(** C8, at one input: both files of a frame are already there and
    [overwrite=False]; [save_dataframe] skips them and returns, and no
    warning has been logged. *)
Lemma save_dataframe_warning_counterexample :
  save_dataframe (polars := Sample.polars) Sample.shop_frame "shop"
      ["data"; "old.json"] ["data"; "old.parquet"] false Sample.disk
    = (Ok tt, Sample.disk) ∧
  warnings Sample.disk = [] ∧
  warnings
    (snd (save_dataframe (polars := Sample.polars) Sample.shop_frame "shop"
            ["data"; "old.json"] ["data"; "old.parquet"] false Sample.disk))
    ≠ [SkippingCreation ["data"; "old.json"];
       SkippingCreation ["data"; "old.parquet"]] ∧
  warnings
    (snd (save_image_as_jpg_file (libs := Sample.libs) ["data"; "old.jpg"]
            (ArgPIL Sample.photo) false true Sample.disk))
    = [SkippingCreation ["data"; "old.jpg"]].
Proof.
  assert (Hskip : save_dataframe (polars := Sample.polars) Sample.shop_frame "shop"
      ["data"; "old.json"] ["data"; "old.parquet"] false Sample.disk
    = (Ok tt, Sample.disk)).
  { apply (save_dataframe_skip (polars := Sample.polars) _ _ _ _ _
             [Byte.x02] [Byte.x03]); by vm_compute. }
  split; [exact Hskip |]. split; [reflexivity |].
  split; [by rewrite Hskip |].
  rewrite (save_image_as_jpg_file_skip (libs := Sample.libs) Sample.disk
             ["data"; "old.jpg"] [Byte.x01] _ _ sample_disk_wf);
    [done | by vm_compute].
Qed.

Lemma overwrite_policy_witness :
  save_image_as_jpg_file (libs := Sample.libs) ["data"; "old.jpg"]
      (ArgBytes [Byte.x09]) false true Sample.disk
    = (Ok tt, warned (SkippingCreation ["data"; "old.jpg"]) Sample.disk) ∧
  save_dataframe (polars := Sample.polars) Sample.shop_frame "shop"
      ["data"; "old.json"] ["data"; "old.parquet"] false Sample.disk
    = (Ok tt, Sample.disk) ∧
  save_image_as_jpg_file (libs := Sample.libs) ["data"; "old.jpg"]
      (ArgPIL Sample.photo) true true Sample.disk
    = (Ok tt, put_file ["data"; "old.jpg"] [Byte.x09] Sample.disk) ∧
  save_dataframe (polars := Sample.polars) Sample.shop_frame "shop"
      ["data"; "old.json"] ["data"; "old.parquet"] true Sample.disk
    = (Ok tt, put_file ["data"; "old.parquet"] [Byte.x00]
                (put_file ["data"; "old.json"] [Byte.x7b] Sample.disk)).
Proof.
  destruct (overwrite_policy (polars := Sample.polars) Sample.disk
              ["data"; "old.jpg"] ["data"; "old.json"] ["data"; "old.parquet"]
              [Byte.x01] [Byte.x02] [Byte.x03])
    as (Hskip & _ & _ & Hdskip & _ & _ & _ & Hpil & Hdf).
  - exact sample_disk_wf.
  - by vm_compute.
  - by vm_compute.
  - by vm_compute.
  - split_and!.
    + apply Hskip.
    + apply Hdskip.
    + apply Hpil. reflexivity.
    + apply Hdf.
Defined.

End HandlerFacts.


(** ** The session state machine *)
Module StateFacts.
Import Fs Schemas Handler State App.

Section WithLibs.
Context {bcrypt : Bcrypt} {libs : Libs} {polars : Polars}.

(** C4: [identify_image_processing_state] answers [WRANGLE] for a handler
    that holds extracted receipt data and [ROTATE] for one that holds none,
    whatever the [cropped] and [rotated] flags, the angle and the edited
    image are. *)
Theorem identify_image_processing_state_resume
    dir img data file_name names info (c r : bool) a e :
  identify_image_processing_state
    {| target_directory := dir; original_image := img;
       original_image_bytes := data; original_file_name := file_name;
       target_file_names := names; extracted_receipt_info := Some info;
       cropped := c; rotated := r; angle := a; edited_image := e |} = WRANGLE ∧
  identify_image_processing_state
    {| target_directory := dir; original_image := img;
       original_image_bytes := data; original_file_name := file_name;
       target_file_names := names; extracted_receipt_info := None;
       cropped := c; rotated := r; angle := a; edited_image := e |} = ROTATE.
Proof. split; reflexivity. Qed.

Lemma identify_image_processing_state_not_SAVE (h : ImageHandler) :
  identify_image_processing_state h ≠ SAVE.
Proof.
  unfold identify_image_processing_state.
  by destruct (extracted_receipt_info h).
Qed.

(** The session holds no [AppState] in state [SAVE]. *)
Definition no_save (w : World) : Prop :=
  ∀ a, session_app_state w = Some a → state a ≠ SAVE.

(** An action that keeps [no_save], whether it returns or raises. *)
Definition pres {A : Type} (m : M World A) : Prop :=
  ∀ w, no_save w → no_save (snd (m w)).

Lemma pres_ret {A} (a : A) : pres (ret a).
Proof. by intros w Hw. Qed.

Lemma pres_raise {A} e : pres (raise (A := A) e).
Proof. by intros w Hw. Qed.

Lemma pres_lift_result {A} (r : result A) : pres (lift_result r).
Proof. by intros w Hw. Qed.

Lemma pres_gets {A} (f : World → A) : pres (gets f).
Proof. by intros w Hw. Qed.

Lemma pres_bind {A B} (m : M World A) (k : A → M World B) :
  pres m → (∀ a, pres (k a)) → pres (bindM m k).
Proof.
  intros Hm Hk w Hw. unfold bindM. specialize (Hm w Hw).
  destruct (m w) as [[a | e] w']; cbn in *; [by apply Hk | done].
Qed.

Lemma pres_show e : pres (show e).
Proof. by intros w Hw. Qed.

Lemma pres_on_fs {A} (m : M FS A) : pres (on_fs m).
Proof. intros w Hw. unfold on_fs. by destruct (m (fs w)). Qed.

Lemma pres_get_app_state : pres get_app_state.
Proof.
  intros w Hw. unfold get_app_state.
  destruct (session_app_state w) eqn:Ha; [done |].
  intros a [= <-]. done.
Qed.

Lemma pres_set_app_state : pres set_app_state.
Proof. by intros w Hw. Qed.

Lemma pres_get_settings : pres get_settings.
Proof. intros w Hw. unfold get_settings. by destruct (session_settings w). Qed.

Lemma pres_init_settings load username : pres (init_settings load username).
Proof.
  intros w Hw. unfold init_settings.
  destruct (session_settings w); [done |]. by destruct (load username).
Qed.

Lemma pres_assign_state s : s ≠ SAVE → pres (assign (set_state s)).
Proof.
  intros Hs w Hw a. unfold assign, modify. cbn.
  destruct (session_app_state w); cbn; [| done]. by intros [= <-].
Qed.

Lemma pres_assign_same (f : AppState → AppState) :
  (∀ a, state (f a) = state a) → pres (assign f).
Proof.
  intros Hf w Hw a. unfold assign, modify. cbn.
  destruct (session_app_state w) as [a0|] eqn:Ha; cbn; [| done].
  intros [= <-]. rewrite Hf. by apply Hw.
Qed.

Lemma pres_assign_handler f : pres (assign_handler f).
Proof. by apply pres_assign_same. Qed.

Lemma pres_check_is_legit_user i user : pres (check_is_legit_user i user).
Proof. by intros w Hw. Qed.

Lemma pres_collect_data i : pres (collect_data i).
Proof. by intros w Hw. Qed.

Ltac pres_step :=
  match goal with
  | |- pres (bindM _ _) => apply pres_bind; [| intros ?]
  | |- pres (ret _) => apply pres_ret
  | |- pres (raise _) => apply pres_raise
  | |- pres (lift_result _) => apply pres_lift_result
  | |- pres (gets _) => apply pres_gets
  | |- pres current_handler => apply pres_gets
  | |- pres (show _) => apply pres_show
  | |- pres (on_fs _) => apply pres_on_fs
  | |- pres get_app_state => apply pres_get_app_state
  | |- pres set_app_state => apply pres_set_app_state
  | |- pres get_settings => apply pres_get_settings
  | |- pres (init_settings _ _) => apply pres_init_settings
  | |- pres (check_is_legit_user _ _) => apply pres_check_is_legit_user
  | |- pres (assign_handler _) => apply pres_assign_handler
  | |- pres (assign (set_state (identify_image_processing_state _))) =>
      apply pres_assign_state, identify_image_processing_state_not_SAVE
  | |- pres (assign (set_state _)) => apply pres_assign_state; discriminate
  | |- pres (assign _) => apply pres_assign_same; reflexivity
  | |- pres (match ?x with _ => _ end) => destruct x
  end.

Ltac pres_auto := cbn zeta; repeat pres_step.

Lemma pres_do_login i : pres (do_login i).
Proof. unfold do_login. pres_auto. Qed.

Lemma pres_do_logout i : pres (do_logout i).
Proof. unfold do_logout. pres_auto. Qed.

Lemma pres_do_upload_image i : pres (do_upload_image i).
Proof. unfold do_upload_image. pres_auto. Qed.

Lemma pres_do_rotate i : pres (do_rotate i).
Proof. unfold do_rotate. pres_auto. Qed.

Lemma pres_do_crop i : pres (do_crop i).
Proof. unfold do_crop. pres_auto. Qed.

Lemma pres_do_extract i : pres (do_extract i).
Proof. unfold do_extract. pres_auto. Qed.

Lemma pres_do_wrangle i : pres (do_wrangle i).
Proof. unfold do_wrangle. pres_auto. Qed.

Lemma pres_do_done : pres do_done.
Proof. unfold do_done. pres_auto. Qed.

Lemma pres_process_image i : pres (process_image i).
Proof.
  unfold process_image. apply pres_bind; [apply pres_get_app_state |].
  intros a. destruct (state a);
    auto using pres_do_upload_image, pres_do_rotate, pres_do_crop,
      pres_do_extract, pres_do_wrangle, pres_do_done, pres_ret.
Qed.

Lemma pres_main i : pres (main i).
Proof.
  unfold main, set_logging_in_state_if_not_logged_in, check_is_logged_in.
  apply pres_bind; [pres_auto |]. intros _.
  apply pres_bind; [apply pres_get_app_state |]. intros a.
  destruct (is_logged_in a); [| apply pres_do_login].
  destruct (page i);
    auto using pres_process_image, pres_collect_data, pres_do_logout.
Qed.

(** C9: [SAVE] is declared and never entered: in every world a session can
    reach by runs of the script (login, upload, rotate, crop, extract,
    wrangle, done, logout, collection), the [AppState] the session holds is
    not in state [SAVE]. *)
Theorem SAVE_unreachable (w : World) :
  reachable w → ∀ a, session_app_state w = Some a → state a ≠ SAVE.
Proof.
  induction 1 as [w Hinit | w w' _ IH [i <-]].
  - unfold initial in Hinit. intros a. by rewrite Hinit.
  - by apply pres_main.
Qed.

(** What [do_logout] leaves in the session once the button is pressed: the
    same object with the login flag cleared and the state back at [LOGIN]. *)
Definition logged_out (a : AppState) : AppState :=
  {| state := LOGIN; is_logged_in := false;
     image_handler := image_handler a; username := username a |}.

(** C6 (amended): the logout action sets [state = LOGIN] and
    [is_logged_in = false] on the session's [AppState] and leaves its
    [image_handler] and [username] as they were; it shows its message and
    ends the run, and touches neither the files nor the rate limiter. *)
Theorem do_logout_clears_login_only (i : Inputs) (w : World) (a : AppState) :
  logout_pressed i = true →
  session_app_state w = Some a →
  fst (do_logout i w) = Ok tt ∧
  session_app_state (snd (do_logout i w)) = Some (logged_out a) ∧
  state (logged_out a) = LOGIN ∧
  is_logged_in (logged_out a) = false ∧
  image_handler (logged_out a) = image_handler a ∧
  username (logged_out a) = username a ∧
  ui (snd (do_logout i w)) = (ui w ++ [StInfo "Logging out"; StRerun])%list ∧
  fs (snd (do_logout i w)) = fs w ∧
  rate_limiter (snd (do_logout i w)) = rate_limiter w.
Proof.
  intros Hp Ha. unfold do_logout. rewrite Hp.
  unfold bindM, show, modify, get_app_state, assign, set_app_state. cbn.
  rewrite Ha. cbn. split_and!; try done.
  by rewrite <- app_assoc.
Qed.

(** C7: a submission with an empty username or an empty password fails
    [User] validation; [do_login] shows "Login failed" once and never
    reaches [check_is_legit_user]: the rate limiter is as it was, nothing is
    asked of a credential backend, and the session's [AppState] is
    untouched. *)
Theorem do_login_empty_field (i : Inputs) (w : World) :
  submit i = true →
  username_input i = "" ∨ password_input i = "" →
  UserDb.mk_User (username_input i) (password_input i) = Raise ValidationError ∧
  ui (snd (do_login i w)) = (ui w ++ [StError "Login failed"])%list ∧
  rate_limiter (snd (do_login i w)) = rate_limiter w ∧
  db_log (snd (do_login i w)) = db_log w ∧
  session_app_state (snd (do_login i w)) = session_app_state w ∧
  fs (snd (do_login i w)) = fs w.
Proof.
  intros Hs Hempty.
  assert (Hu : UserDb.mk_User (username_input i) (password_input i)
               = Raise ValidationError).
  { unfold UserDb.mk_User, UserDb.min_length.
    destruct Hempty as [-> | ->]; cbn; [done |].
    by destruct (String.length (username_input i) =? 0)%nat. }
  split; [exact Hu |].
  unfold do_login. rewrite Hs, Hu.
  unfold bindM, show, modify, ret, init_settings. cbn.
  destruct (session_settings w); cbn; [done |].
  by destruct (load_settings i (username_input i)).
Qed.

End WithLibs.

(** Widget values of a run in which nothing is typed or pressed. *)
Definition idle : Inputs (libs := Sample.libs) :=
  {| page := ProcessPage;
     username_input := ""; password_input := ""; submit := false;
     logout_pressed := false;
     uploaded_file := None; is_done := false; degrees := 0;
     st_cropper := λ img, img;
     anthropic_client := Ok tt;
     make_anthropic_request := λ _, Ok Sample.receipt;
     edit_shop := ShopFrame; edit_items := ItemsFrame;
     collect_files := λ fs, fs;
     now := 0%Z;
     backends := UserDbFacts.og_backends;
     load_settings := λ _, Ok {| Settings.extraction_artifacts_dir := ["data"] |} |}.

Definition press_logout (i : Inputs (libs := Sample.libs)) : Inputs :=
  {| page := LogoutPage;
     username_input := username_input i; password_input := password_input i;
     submit := submit i;
     logout_pressed := true;
     uploaded_file := uploaded_file i; is_done := is_done i;
     degrees := degrees i; st_cropper := st_cropper i;
     anthropic_client := anthropic_client i;
     make_anthropic_request := make_anthropic_request i;
     edit_shop := edit_shop i; edit_items := edit_items i;
     collect_files := collect_files i; now := now i;
     backends := backends i; load_settings := load_settings i |}.

Definition press_submit (i : Inputs (libs := Sample.libs)) : Inputs :=
  {| page := LoginPage;
     username_input := username_input i; password_input := password_input i;
     submit := true;
     logout_pressed := logout_pressed i;
     uploaded_file := uploaded_file i; is_done := is_done i;
     degrees := degrees i; st_cropper := st_cropper i;
     anthropic_client := anthropic_client i;
     make_anthropic_request := make_anthropic_request i;
     edit_shop := edit_shop i; edit_items := edit_items i;
     collect_files := collect_files i; now := now i;
     backends := backends i; load_settings := load_settings i |}.

(** A session that has just opened the page. *)
Definition fresh_world : World (libs := Sample.libs) :=
  {| session_app_state := None; session_settings := None;
     fs := Sample.disk; rate_limiter := ∅; ui := []; db_log := [] |}.

(** User "og", logged in, with a receipt in progress. *)
Definition og_session : AppState (libs := Sample.libs) :=
  {| state := WRANGLE; is_logged_in := true;
     image_handler := Some Sample.handler; username := Some "og" |}.

Definition og_world : World (libs := Sample.libs) :=
  {| session_app_state := Some og_session; session_settings := None;
     fs := Sample.disk; rate_limiter := ∅; ui := []; db_log := [] |}.

Lemma SAVE_unreachable_witness :
  state (AppState_init (libs := Sample.libs)) ≠ SAVE.
Proof.
  apply (SAVE_unreachable (bcrypt := UserDbFacts.plain_bcrypt)
           (polars := Sample.polars)
           (snd (main (bcrypt := UserDbFacts.plain_bcrypt)
                      (polars := Sample.polars) idle fresh_world))).
  - apply (reachable_step fresh_world); [| by exists idle].
    apply reachable_initial. reflexivity.
  - reflexivity.
Defined.

Definition fill_login (u p : string) (i : Inputs (libs := Sample.libs))
    : Inputs :=
  {| page := LoginPage;
     username_input := u; password_input := p;
     submit := true;
     logout_pressed := logout_pressed i;
     uploaded_file := uploaded_file i; is_done := is_done i;
     degrees := degrees i; st_cropper := st_cropper i;
     anthropic_client := anthropic_client i;
     make_anthropic_request := make_anthropic_request i;
     edit_shop := edit_shop i; edit_items := edit_items i;
     collect_files := collect_files i; now := now i;
     backends := backends i; load_settings := load_settings i |}.

(** C6, at one input: "og" logs in on a fresh session and logs out again;
    the [AppState] left in the session still carries the username, so it is
    not a freshly created one. Logging out in the middle of a receipt keeps
    the image handler as well. *)
Lemma do_logout_counterexample :
  let run := main (bcrypt := UserDbFacts.plain_bcrypt) (polars := Sample.polars) in
  let w1 := snd (run (fill_login "og" "secret" idle) fresh_world) in
  let w2 := snd (run (press_logout idle) w1) in
  session_app_state w1
    = Some {| state := UPLOAD; is_logged_in := true;
              image_handler := None; username := Some "og" |} ∧
  session_app_state w2
    = Some {| state := LOGIN; is_logged_in := false;
              image_handler := None; username := Some "og" |} ∧
  session_app_state w2 ≠ Some AppState_init ∧
  session_app_state (snd (do_logout (press_logout idle) og_world))
    = Some {| state := LOGIN; is_logged_in := false;
              image_handler := Some Sample.handler; username := Some "og" |}.
Proof.
  cbn zeta.
  assert (H1 : session_app_state
                 (snd (main (bcrypt := UserDbFacts.plain_bcrypt)
                         (polars := Sample.polars)
                         (fill_login "og" "secret" idle) fresh_world))
               = Some {| state := UPLOAD; is_logged_in := true;
                         image_handler := None; username := Some "og" |})
    by (by vm_compute).
  assert (H2 : session_app_state
                 (snd (main (bcrypt := UserDbFacts.plain_bcrypt)
                         (polars := Sample.polars) (press_logout idle)
                         (snd (main (bcrypt := UserDbFacts.plain_bcrypt)
                                 (polars := Sample.polars)
                                 (fill_login "og" "secret" idle) fresh_world))))
               = Some {| state := LOGIN; is_logged_in := false;
                         image_handler := None; username := Some "og" |})
    by (by vm_compute).
  split; [exact H1 |]. split; [exact H2 |]. split; [| reflexivity].
  rewrite H2. intros Heq.
  apply (f_equal (λ o, match o with Some a => username a | None => None end)) in Heq.
  cbn in Heq. discriminate.
Qed.

Lemma do_logout_clears_login_only_witness :
  session_app_state
    (snd (do_logout (press_logout idle) og_world))
    = Some (logged_out og_session).
Proof.
  apply (do_logout_clears_login_only (press_logout idle) og_world og_session);
    reflexivity.
Defined.

Lemma do_login_empty_field_witness :
  ui (snd (do_login (bcrypt := UserDbFacts.plain_bcrypt)
             (press_submit idle) fresh_world))
    = [StError "Login failed"] ∧
  rate_limiter (snd (do_login (bcrypt := UserDbFacts.plain_bcrypt)
                       (press_submit idle) fresh_world))
    = ∅.
Proof.
  destruct (do_login_empty_field (bcrypt := UserDbFacts.plain_bcrypt)
              (press_submit idle) fresh_world)
    as (_ & Hui & Hrl & _).
  - reflexivity.
  - left. reflexivity.
  - split; [exact Hui | exact Hrl].
Defined.

End StateFacts.

(** ** Saving a handler and loading it back *)
Module RoundTrip.
Import Fs FsFacts Schemas Handler.

Section WithLibs.
Context {libs : Libs} {polars : Polars}.

Lemma exists_put_file q p data fs :
  exists_ q (put_file p data fs) = exists_ q fs || bool_decide (p = q).
Proof.
  unfold exists_. rewrite is_dir_put_file. case_bool_decide as Hpq.
  - subst q. rewrite is_file_put_file_eq. by rewrite !orb_true_r.
  - rewrite is_file_put_file_ne by done. by rewrite orb_false_r.
Qed.

Lemma exists_add_dir q p fs :
  exists_ q (add_dir p fs) = exists_ q fs || bool_decide (p = q).
Proof.
  unfold exists_. rewrite is_file_add_dir. case_bool_decide as Hpq.
  - subst q. rewrite is_dir_add_dir_eq. by rewrite orb_true_r.
  - rewrite is_dir_add_dir_ne by done. by rewrite orb_false_r.
Qed.

Lemma exists_false_is_dir p fs : exists_ p fs = false → is_dir p fs = false.
Proof. unfold exists_. by intros [? _]%orb_false_iff. Qed.

Lemma exists_false_lookup p fs : exists_ p fs = false → files fs !! p = None.
Proof. unfold exists_. intros [_ ?]%orb_false_iff. by apply is_file_false. Qed.

Lemma lookup_exists p fs data : files fs !! p = Some data → exists_ p fs = true.
Proof.
  intros Hp. unfold exists_. replace (is_file p fs) with true; [by rewrite orb_true_r |].
  symmetry. apply is_file_true. by eexists.
Qed.

Lemma write_file_new p data fs :
  is_dir (parent p) fs = true → is_dir p fs = false →
  write_file p data fs = (Ok tt, put_file p data fs).
Proof. intros Hpar Hnd. unfold write_file. by rewrite Hnd, Hpar. Qed.

(** Saving an image into a directory that is there, at a path that is not. *)
Lemma save_image_as_jpg_file_new fs p img overwrite mkdir :
  is_dir (parent p) fs = true → exists_ p fs = false →
  save_image_as_jpg_file p (ArgPIL img) overwrite mkdir fs
    = match pil_save img with
      | Ok data => (Ok tt, put_file p data fs)
      | Raise e => (Raise e, fs)
      end.
Proof.
  intros Hpar Hex.
  unfold save_image_as_jpg_file, bindM, gets, ret, lift_result. cbn zeta.
  unfold exists_ at 1 2. rewrite Hpar. cbn. rewrite Hex. cbn.
  destruct (pil_save img); [| done].
  apply write_file_new; [done | by apply exists_false_is_dir].
Qed.

(** Saving an image whose directory is not there yet. *)
Lemma save_image_as_jpg_file_mkdir fs dir s img overwrite mkdir :
  fs_wf fs → exists_ dir fs = false →
  save_image_as_jpg_file (joinpath dir s) (ArgPIL img) overwrite mkdir fs
    = if mkdir then
        if is_dir (parent dir) fs then
          match pil_save img with
          | Ok data => (Ok tt, put_file (joinpath dir s) data (add_dir dir fs))
          | Raise e => (Raise e, add_dir dir fs)
          end
        else (Raise FileNotFoundError, fs)
      else (Raise FileNotFoundError, fs).
Proof.
  intros Hwf Hdir.
  pose proof (fs_wf_below fs dir s Hwf Hdir) as Hp.
  unfold save_image_as_jpg_file, bindM, gets, ret, lift_result, raise. cbn zeta.
  rewrite parent_joinpath, Hdir. cbn.
  destruct mkdir; cbn; [| done].
  unfold mkdir. rewrite Hdir.
  destruct (is_dir (parent dir) fs) eqn:Hpar; cbn; [| done].
  rewrite exists_add_dir, Hp.
  rewrite bool_decide_eq_false_2 by (intros Heq; by apply (joinpath_ne_self dir s)).
  cbn. destruct (pil_save img); [| done].
  apply write_file_new.
  - rewrite parent_joinpath. apply is_dir_add_dir_eq.
  - rewrite is_dir_add_dir_ne by (intros Heq; by apply (joinpath_ne_self dir s)).
    by apply exists_false_is_dir.
Qed.

(** Saving a frame where neither of its two files is there. *)
Lemma save_dataframe_new fs df name jp pp overwrite :
  is_dir (parent jp) fs = true → is_dir (parent pp) fs = true →
  exists_ jp fs = false → exists_ pp fs = false → jp ≠ pp →
  save_dataframe df name jp pp overwrite fs
    = (Ok tt, put_file pp (write_parquet df) (put_file jp (write_json df) fs)).
Proof.
  intros Hjpar Hppar Hj Hp Hne.
  unfold save_dataframe, bindM, gets, ret. rewrite Hj. cbn.
  rewrite write_file_new; [| done | by apply exists_false_is_dir].
  rewrite exists_put_file, Hp, bool_decide_eq_false_2 by done. cbn.
  apply write_file_new; rewrite is_dir_put_file;
    [done | by apply exists_false_is_dir].
Qed.

Lemma CategoryEnum_of_value_value c :
  CategoryEnum_of_value (CategoryEnum_value c) = Some c.
Proof. by destruct c. Qed.

Lemma Item_of_row_model_dump item : Item_of_row (model_dump_item item) = Ok item.
Proof.
  destruct item as [n p c m t cat]. unfold Item_of_row, model_dump_item. cbn.
  destruct cat as [c0|]; [| done]. by destruct c0.
Qed.

Lemma Items_of_rows_model_dump its :
  Items_of_rows (model_dump_item <$> its) = Ok its.
Proof.
  induction its as [| item its IH]; [done |].
  cbn. by rewrite Item_of_row_model_dump, IH.
Qed.

(** The two frames [save_receipt_info] writes give the receipt back. *)
Lemma receipt_frames_round_trip (info : Receipt) :
  polars_info_dataframes_to_pydantic
    (ShopFrame (with_null_time <$> convert_to_dataframe_shop info))
    (ItemsFrame (convert_to_dataframe_items info)) = Ok info.
Proof.
  destruct info as [[n d t tot] its].
  unfold polars_info_dataframes_to_pydantic, convert_to_dataframe_items. cbn.
  by rewrite Items_of_rows_model_dump.
Qed.

Lemma get_target_file_path_field (h : ImageHandler) name s :
  field_value (target_file_names h) name = Some s →
  get_target_file_path h name = Ok (joinpath (target_directory h) s).
Proof.
  intros Hf. unfold get_target_file_path, py_hasattr, py_getattr.
  by rewrite Hf.
Qed.

(** [Image.open] on a file that may not be there. *)
Definition open_if_present (o : option bytes) : result (option Image) :=
  match o with
  | None => Ok None
  | Some data =>
      match pil_open data with
      | Ok img => Ok (Some img)
      | Raise e => Raise e
      end
  end.

Lemma exists_lookup p fs :
  is_dir p fs = false →
  exists_ p fs = match files fs !! p with Some _ => true | None => false end.
Proof. intros Hd. unfold exists_, is_file. by rewrite Hd. Qed.

(** [from_target_directory] hands back what the files of the directory
    hold. *)
Lemma from_target_directory_on_disk dir fs data img eimg info_o :
  files fs !! joinpath dir "original-image.jpg" = Some data →
  pil_open data = Ok img →
  (∀ s, is_dir (joinpath dir s) fs = false) →
  open_if_present (files fs !! joinpath dir "edited-image.jpg") = Ok eimg →
  match files fs !! joinpath dir "shop-info.parquet",
        files fs !! joinpath dir "items-info.parquet" with
  | Some bs, Some bi =>
      ∃ sdf idf info,
        read_parquet bs = Ok sdf ∧ read_parquet bi = Ok idf ∧
        polars_info_dataframes_to_pydantic sdf idf = Ok info ∧
        info_o = Some info
  | None, None => info_o = None
  | _, _ => False
  end →
  from_target_directory dir fs
    = (Ok {| target_directory := dir;
             original_image := img;
             original_image_bytes := data;
             original_file_name := "original-image.jpg";
             target_file_names := Settings.StoredFileNames_default;
             extracted_receipt_info := info_o;
             cropped := false; rotated := false;
             angle := NumFloat 0%float;
             edited_image := eimg |}, fs).
Proof.
  intros Ho Himg Hnd He Hp.
  unfold from_target_directory, Image_open, pl_read_parquet.
  cbn zeta. change (Settings.original_image Settings.StoredFileNames_default)
    with "original-image.jpg".
  rewrite name_joinpath.
  unfold bindM, gets, ret, lift_result, read_file.
  repeat (cbv beta iota;
          first [ rewrite Ho | rewrite Himg
                | rewrite (get_target_file_path_field _ "edited_image" "edited-image.jpg") by done
                | rewrite exists_lookup by apply Hnd
                | progress cbn [target_directory mk_ImageHandler set_edited_image] ]).
  destruct (files fs !! joinpath dir "edited-image.jpg") as [de|] eqn:Hde;
    cbn in He;
    [destruct (pil_open de) as [ie|] eqn:Hie; [| done] |];
    injection He as <-;
    repeat (cbv beta iota;
          first [ rewrite Hde | rewrite Hie
                | rewrite (get_target_file_path_field _ "shop_info_parquet" "shop-info.parquet") by done
                | rewrite (get_target_file_path_field _ "items_info_parquet" "items-info.parquet") by done
                | rewrite exists_lookup by apply Hnd
                | progress cbn [target_directory mk_ImageHandler set_edited_image] ]);
    destruct (files fs !! joinpath dir "shop-info.parquet") as [bs|] eqn:Hbs;
    destruct (files fs !! joinpath dir "items-info.parquet") as [bi|] eqn:Hbi;
    try done.
  all: try (destruct Hp as (sdf & idf & info & Hs & Hi & Hinfo & ->)).
  all: try subst info_o.
  all: repeat (cbv beta iota;
          first [ rewrite Hbs | rewrite Hbi | rewrite Hs | rewrite Hi | rewrite Hinfo
                | rewrite exists_lookup by apply Hnd ]).
  all: reflexivity.
Qed.

Lemma get_target_file_path_default (h : ImageHandler) name s :
  target_file_names h = Settings.StoredFileNames_default →
  field_value Settings.StoredFileNames_default name = Some s →
  get_target_file_path h name = Ok (joinpath (target_directory h) s).
Proof.
  intros Hn Hf. apply get_target_file_path_field. by rewrite Hn.
Qed.

Lemma joinpath_eq_false dir a b :
  a ≠ b → bool_decide (joinpath dir a = joinpath dir b) = false.
Proof.
  intros Hne. apply bool_decide_eq_false_2. intros Heq.
  by apply joinpath_inj in Heq.
Qed.

Lemma joinpath_lookup_ne (dir : Path) (a b : string) (data : bytes)
    (m : gmap Path bytes) :
  a ≠ b → <[joinpath dir a := data]> m !! joinpath dir b = m !! joinpath dir b.
Proof.
  intros Hne. apply lookup_insert_ne. intros Heq. by apply joinpath_inj in Heq.
Qed.

(** A directory [dir] just made in [fs], with the files written into it
    since, the latest first. *)
Definition layer (dir : Path) (fs : FS) (l : list (string * bytes)) : FS :=
  foldr (λ x acc, put_file (joinpath dir (fst x)) (snd x) acc) (add_dir dir fs) l.

Fixpoint assoc (s : string) (l : list (string * bytes)) : option bytes :=
  match l with
  | [] => None
  | (a, data) :: l' => if String.eqb a s then Some data else assoc s l'
  end.

Lemma layer_is_dir_self dir fs l : is_dir dir (layer dir fs l) = true.
Proof.
  induction l as [| x l IH]; cbn; [apply is_dir_add_dir_eq |].
  by rewrite is_dir_put_file.
Qed.

Lemma layer_is_dir dir fs l s :
  exists_ (joinpath dir s) fs = false →
  is_dir (joinpath dir s) (layer dir fs l) = false.
Proof.
  intros Hex. induction l as [| x l IH]; cbn.
  - rewrite is_dir_add_dir_ne by (intros Heq; by apply (joinpath_ne_self dir s)).
    by apply exists_false_is_dir.
  - by rewrite is_dir_put_file.
Qed.

Lemma layer_lookup dir fs l s :
  exists_ (joinpath dir s) fs = false →
  files (layer dir fs l) !! joinpath dir s = assoc s l.
Proof.
  intros Hex. induction l as [| [a data] l IH]; cbn.
  - by apply exists_false_lookup.
  - destruct (String.eqb_spec a s) as [-> | Hne].
    + apply lookup_insert_eq.
    + by rewrite joinpath_lookup_ne.
Qed.

Lemma layer_exists dir fs l s :
  exists_ (joinpath dir s) fs = false →
  exists_ (joinpath dir s) (layer dir fs l)
    = match assoc s l with Some _ => true | None => false end.
Proof.
  intros Hex. rewrite exists_lookup by by apply layer_is_dir.
  by rewrite layer_lookup.
Qed.

Lemma save_dataframe_layer dir fs l df name js ps overwrite :
  (∀ s, exists_ (joinpath dir s) fs = false) →
  assoc js l = None → assoc ps l = None → js ≠ ps →
  save_dataframe df name (joinpath dir js) (joinpath dir ps) overwrite
      (layer dir fs l)
    = (Ok tt, layer dir fs ((ps, write_parquet df) :: (js, write_json df) :: l)).
Proof.
  intros Hbelow Hj Hp Hne. apply save_dataframe_new.
  - rewrite parent_joinpath. apply layer_is_dir_self.
  - rewrite parent_joinpath. apply layer_is_dir_self.
  - rewrite layer_exists by done. by rewrite Hj.
  - rewrite layer_exists by done. by rewrite Hp.
  - intros Heq. by apply joinpath_inj in Heq.
Qed.

Lemma save_into_new_directory (h : ImageHandler) mkdir overwrite fs fs' :
  fs_wf fs →
  target_file_names h = Settings.StoredFileNames_default →
  exists_ (target_directory h) fs = false →
  save h mkdir overwrite fs = (Ok tt, fs') →
  ∃ data,
    pil_save (original_image h) = Ok data ∧
    files fs' !! joinpath (target_directory h) "original-image.jpg" = Some data ∧
    (∀ s, is_dir (joinpath (target_directory h) s) fs' = false) ∧
    match edited_image h with
    | Some img =>
        ∃ de, pil_save img = Ok de ∧
          files fs' !! joinpath (target_directory h) "edited-image.jpg" = Some de
    | None =>
        files fs' !! joinpath (target_directory h) "edited-image.jpg" = None
    end ∧
    match extracted_receipt_info h with
    | Some info =>
        files fs' !! joinpath (target_directory h) "shop-info.parquet"
          = Some (write_parquet
                    (ShopFrame (with_null_time <$> convert_to_dataframe_shop info))) ∧
        files fs' !! joinpath (target_directory h) "items-info.parquet"
          = Some (write_parquet (ItemsFrame (convert_to_dataframe_items info)))
    | None =>
        files fs' !! joinpath (target_directory h) "shop-info.parquet" = None ∧
        files fs' !! joinpath (target_directory h) "items-info.parquet" = None
    end.
Proof.
  intros Hwf Hn Hdir Hsave.
  set (dir := target_directory h) in *.
  assert (Hbelow : ∀ s, exists_ (joinpath dir s) fs = false)
    by (intros s; by apply fs_wf_below).
  unfold save, save_images, save_original_image, save_edited_image,
    save_image in Hsave.
  unfold bindM at 1 2 3 in Hsave. unfold lift_result at 1 in Hsave.
  rewrite (get_target_file_path_default h "original_image" "original-image.jpg")
    in Hsave by done.
  fold dir in Hsave. cbv beta iota in Hsave.
  rewrite save_image_as_jpg_file_mkdir in Hsave by done.
  destruct mkdir; [| done].
  destruct (is_dir (parent dir) fs) eqn:Hpar; [| done].
  destruct (pil_save (original_image h)) as [data|] eqn:Hdata; [| done].
  exists data. split; [done |].
  unfold bindM at 1 in Hsave. unfold lift_result at 1 in Hsave.
  rewrite (get_target_file_path_default h "edited_image" "edited-image.jpg")
    in Hsave by done.
  fold dir in Hsave. cbv beta iota in Hsave.
  change (put_file (joinpath dir "original-image.jpg") data (add_dir dir fs))
    with (layer dir fs [("original-image.jpg", data)]) in Hsave.
  assert (Hstep : ∃ l,
    (match extracted_receipt_info h with
     | Some _ => save_receipt_info h overwrite
     | None => ret ()
     end) (layer dir fs (l ++ [("original-image.jpg", data)])) = (Ok (), fs') ∧
    match edited_image h with
    | Some img => ∃ de, pil_save img = Ok de ∧ l = [("edited-image.jpg", de)]
    | None => l = []
    end).
  { destruct (edited_image h) as [img|].
    - rewrite save_image_as_jpg_file_new in Hsave;
        [| rewrite parent_joinpath; apply layer_is_dir_self
         | by rewrite layer_exists ].
      destruct (pil_save img) as [de|]; [| done].
      exists [("edited-image.jpg", de)]. split; [exact Hsave | by exists de].
    - by exists []. }
  clear Hsave. destruct Hstep as (l & Hsave & Hl).
  assert (Hl' : l = [] ∨ ∃ de, l = [("edited-image.jpg", de)]).
  { destruct (edited_image h); [right | by left].
    destruct Hl as (de & _ & ->). by exists de. }
  assert (Hfin : ∃ l2,
    fs' = layer dir fs (l2 ++ l ++ [("original-image.jpg", data)]) ∧
    match extracted_receipt_info h with
    | Some info =>
        l2 = [ ("items-info.parquet",
                 write_parquet (ItemsFrame (convert_to_dataframe_items info)));
               ("items-info.json",
                 write_json (ItemsFrame (convert_to_dataframe_items info)));
               ("shop-info.parquet",
                 write_parquet
                   (ShopFrame (with_null_time <$> convert_to_dataframe_shop info)));
               ("shop-info.json",
                 write_json
                   (ShopFrame (with_null_time <$> convert_to_dataframe_shop info))) ]
    | None => l2 = []
    end).
  { destruct (extracted_receipt_info h) as [info|] eqn:Hinfo.
    - unfold save_receipt_info, save_shop_info, save_items_info in Hsave.
      rewrite Hinfo in Hsave.
      unfold bindM, lift_result in Hsave.
      rewrite (get_target_file_path_default h "shop_info_json" "shop-info.json")
        in Hsave by done.
      rewrite (get_target_file_path_default h "shop_info_parquet" "shop-info.parquet")
        in Hsave by done.
      rewrite (get_target_file_path_default h "items_info_json" "items-info.json")
        in Hsave by done.
      rewrite (get_target_file_path_default h "items_info_parquet" "items-info.parquet")
        in Hsave by done.
      fold dir in Hsave. cbv beta iota in Hsave.
      rewrite save_dataframe_layer in Hsave;
        [| done | by destruct Hl' as [-> | [de ->]]
         | by destruct Hl' as [-> | [de ->]] | done].
      rewrite save_dataframe_layer in Hsave;
        [| done | by destruct Hl' as [-> | [de ->]]
         | by destruct Hl' as [-> | [de ->]] | done].
      injection Hsave as <-. eexists. split; cycle 1; reflexivity.
    - exists []. split; [| done]. unfold ret in Hsave. by injection Hsave as <-. }
  destruct Hfin as (l2 & -> & Hl2).
  assert (Hl2' : assoc "original-image.jpg" l2 = None ∧
                 assoc "edited-image.jpg" l2 = None).
  { destruct (extracted_receipt_info h); by subst l2. }
  destruct Hl2' as [Hl2o Hl2e].
  split_and!.
  - rewrite layer_lookup by done.
    destruct (extracted_receipt_info h); subst l2;
      by destruct Hl' as [-> | [de ->]].
  - intros s. by apply layer_is_dir.
  - destruct (edited_image h) as [img|].
    + destruct Hl as (de & Hde & ->). exists de. split; [done |].
      rewrite layer_lookup by done. by destruct (extracted_receipt_info h); subst l2.
    + subst l. rewrite layer_lookup by done.
      by destruct (extracted_receipt_info h); subst l2.
  - destruct (extracted_receipt_info h) as [info|]; subst l2;
      rewrite !layer_lookup by done; [done |].
    by destruct Hl' as [-> | [de ->]].
Qed.

(** C5 (amended): when [save] of a handler with the default file names
    succeeds into a target directory that was not there before, and PIL can
    open what it wrote and polars reads back the two frames it wrote,
    [from_target_directory] on that directory returns a handler whose
    [original_file_name] is the stored name [original-image.jpg], whose
    target directory is the same, and whose extracted receipt (shop and
    items) is identical to the saved one, present or absent. Nothing is
    stated about the original-image bytes of the loaded handler. *)
Theorem save_then_from_target_directory (h : ImageHandler)
    mkdir overwrite fs fs' :
  fs_wf fs →
  target_file_names h = Settings.StoredFileNames_default →
  exists_ (target_directory h) fs = false →
  save h mkdir overwrite fs = (Ok tt, fs') →
  (∀ img data,
     img = original_image h ∨ edited_image h = Some img →
     pil_save img = Ok data → ∃ img', pil_open data = Ok img') →
  (∀ info,
     extracted_receipt_info h = Some info →
     read_parquet
       (write_parquet
          (ShopFrame (with_null_time <$> convert_to_dataframe_shop info)))
       = Ok (ShopFrame (with_null_time <$> convert_to_dataframe_shop info)) ∧
     read_parquet
       (write_parquet (ItemsFrame (convert_to_dataframe_items info)))
       = Ok (ItemsFrame (convert_to_dataframe_items info))) →
  ∃ h',
    from_target_directory (target_directory h) fs' = (Ok h', fs') ∧
    original_file_name h' = "original-image.jpg" ∧
    target_directory h' = target_directory h ∧
    extracted_receipt_info h' = extracted_receipt_info h.
Proof.
  intros Hwf Hn Hdir Hsave Hpil Hpq.
  destruct (save_into_new_directory h mkdir overwrite fs fs' Hwf Hn Hdir Hsave)
    as (data & Hdata & Ho & Hnd & He & Hr).
  destruct (Hpil (original_image h) data (or_introl eq_refl) Hdata) as [img Himg].
  assert (Hedit : ∃ eimg,
    open_if_present
      (files fs' !! joinpath (target_directory h) "edited-image.jpg") = Ok eimg).
  { destruct (edited_image h) as [ei|] eqn:Hei.
    - destruct He as (de & Hde & ->).
      destruct (Hpil ei de (or_intror eq_refl) Hde) as [ei' Hei'].
      exists (Some ei'). cbn. by rewrite Hei'.
    - rewrite He. by exists None. }
  destruct Hedit as [eimg Heimg].
  eexists.
  split; [apply (from_target_directory_on_disk _ _ data img eimg
                   (extracted_receipt_info h) Ho Himg Hnd Heimg) |].
  - destruct (extracted_receipt_info h) as [info|] eqn:Hinfo.
    + destruct Hr as [-> ->]. destruct (Hpq info eq_refl) as [Hs Hi].
      eexists _, _, info. split_and!; try done.
      apply receipt_frames_round_trip.
    + by destruct Hr as [-> ->].
  - done.
Qed.

End WithLibs.

(** C5, at one input: [test_image.jpg] is saved into a new directory and
    loaded back; the file name does not come back: the loaded handler is
    named after the stored file. *)
Lemma save_reload_counterexample :
  ∃ fs' h',
    save (polars := Sample.polars) Sample.handler true false Sample.disk
      = (Ok tt, fs') ∧
    from_target_directory (polars := Sample.polars)
      (target_directory Sample.handler) fs' = (Ok h', fs') ∧
    original_file_name Sample.handler = "test_image.jpg" ∧
    original_file_name h' = "original-image.jpg" ∧
    original_file_name h' ≠ original_file_name Sample.handler.
Proof.
  eexists _, _. split; [vm_compute; reflexivity |].
  split; [vm_compute; reflexivity |].
  split; [reflexivity |]. split; [reflexivity |]. discriminate.
Qed.

Lemma save_then_from_target_directory_witness :
  let fs' :=
    snd (save (polars := Sample.polars) Sample.handler true false Sample.disk) in
  ∃ h',
    from_target_directory (polars := Sample.polars)
      (target_directory Sample.handler) fs' = (Ok h', fs') ∧
    original_file_name h' = "original-image.jpg" ∧
    extracted_receipt_info h' = Some Sample.receipt.
Proof.
  cbn zeta.
  destruct (save_then_from_target_directory (polars := Sample.polars)
              Sample.handler true false Sample.disk
              (snd (save (polars := Sample.polars) Sample.handler true false
                      Sample.disk)))
    as (h' & Hload & Hname & _ & Hinfo).
  - exact HandlerFacts.sample_disk_wf.
  - reflexivity.
  - by vm_compute.
  - by vm_compute.
  - intros img data _ Hs. exists data. reflexivity.
  - intros info [= <-]. split; reflexivity.
  - exists h'. split; [exact Hload |]. split; [exact Hname | exact Hinfo].
Defined.

End RoundTrip.

(** ** More on the rate limiter and the credential check *)
Module UserDbMore.
Import UserDb UserDbFacts.
Local Open Scope Z_scope.

(** A run of attempts by one username, at the given clock readings. *)
Definition attempts_at (times : list datetime) (u : string)
    (rl : RateLimiter) : RateLimiter :=
  foldl (λ acc t, increment t u acc) rl times.

Lemma attempts_at_within t0 ts u (rl : RateLimiter) a :
  rl !! u = Some a → last_time a = t0 →
  Forall (λ t, t - t0 ≤ timedelta_seconds RATE_LIMIT_WINDOW) ts →
  attempts_at ts u rl !! u
    = Some {| count := count a + Z.of_nat (length ts); last_time := t0 |}.
Proof.
  intros Ha Ht0 Hts. revert rl a Ha Ht0.
  induction Hts as [| t ts Ht _ IH]; intros rl a Ha Ht0.
  - cbn. rewrite Ha. destruct a as [c l]. cbn in *. subst l.
    do 2 f_equal. lia.
  - cbn [attempts_at foldl]. fold (attempts_at ts u (increment t u rl)).
    rewrite (IH (increment t u rl)
               {| count := count a + 1; last_time := last_time a |}).
    + cbn [count length]. do 2 f_equal. lia.
    + apply increment_lookup_within; [done | by rewrite Ht0].
    + done.
Qed.

(** The limiter counts per username: an attempt by one username leaves the
    record of every other username as it was. *)
Theorem rate_limit_per_username now u v (rl : RateLimiter) :
  u ≠ v →
  increment now u rl !! v = rl !! v ∧
  snd (check_limit_exceeded now u rl) !! v = rl !! v.
Proof.
  intros Hne. rewrite check_limit_exceeded_snd.
  split; by apply increment_lookup_other.
Qed.

Lemma rate_limit_per_username_witness :
  snd (check_limit_exceeded 5 "eve" {[ "og" := {| count := 7; last_time := 1 |} ]})
    !! "og" = Some {| count := 7; last_time := 1 |}.
Proof.
  destruct (rate_limit_per_username 5 "eve" "og"
              {[ "og" := {| count := 7; last_time := 1 |} ]}) as [_ H2].
  - discriminate.
  - rewrite H2. apply lookup_singleton_eq.
Defined.

(** For a username that already has a record: within the 60-second window
    the attempt is rejected exactly when the stored count was at least one;
    once more than 60 seconds have passed since [last_time] the attempt is
    let through, whatever the count had grown to. *)
Theorem check_limit_exceeded_existing now u (rl : RateLimiter) a :
  rl !! u = Some a →
  (now - last_time a ≤ timedelta_seconds RATE_LIMIT_WINDOW →
     fst (check_limit_exceeded now u rl) = Ok (bool_decide (1 ≤ count a))) ∧
  (timedelta_seconds RATE_LIMIT_WINDOW < now - last_time a →
     fst (check_limit_exceeded now u rl) = Ok false).
Proof.
  intros Ha. split; intros Hdt.
  - rewrite (check_limit_exceeded_fst now u rl
               {| count := count a + 1; last_time := last_time a |})
      by by apply (increment_lookup_within now u rl a).
    f_equal. apply bool_decide_ext. unfold RATE_LIMIT_COUNT. cbn. lia.
  - by rewrite (check_limit_exceeded_fst now u rl
                  {| count := 1; last_time := now |})
      by by apply (increment_lookup_after now u rl a).
Qed.

Lemma check_limit_exceeded_existing_witness :
  fst (check_limit_exceeded 59000000 "og"
         {[ "og" := {| count := 1; last_time := 0 |} ]}) = Ok true ∧
  fst (check_limit_exceeded 61000000 "og"
         {[ "og" := {| count := 1; last_time := 0 |} ]}) = Ok false.
Proof.
  split.
  - apply (check_limit_exceeded_existing 59000000 "og" _
             {| count := 1; last_time := 0 |});
      [apply lookup_singleton_eq | by vm_compute].
  - apply (check_limit_exceeded_existing 61000000 "og" _
             {| count := 1; last_time := 0 |});
      [apply lookup_singleton_eq | by vm_compute].
Defined.

(** A burst: when a username without a record makes a first attempt at
    [t0] and further attempts within 60 seconds of [t0], the record counts
    every attempt and stays dated [t0]; each further attempt is rejected,
    and the first attempt later than 60 seconds after [t0] is let through,
    however many attempts were made in between. *)
Theorem burst_within_window t0 ts u (rl : RateLimiter) :
  rl !! u = None →
  Forall (λ t, t - t0 ≤ timedelta_seconds RATE_LIMIT_WINDOW) ts →
  attempts_at (t0 :: ts) u rl !! u
    = Some {| count := 1 + Z.of_nat (length ts); last_time := t0 |} ∧
  (∀ t, t - t0 ≤ timedelta_seconds RATE_LIMIT_WINDOW →
     fst (check_limit_exceeded t u (attempts_at (t0 :: ts) u rl)) = Ok true) ∧
  (∀ t, timedelta_seconds RATE_LIMIT_WINDOW < t - t0 →
     fst (check_limit_exceeded t u (attempts_at (t0 :: ts) u rl)) = Ok false).
Proof.
  intros Hfresh Hts.
  assert (Hrec : attempts_at (t0 :: ts) u rl !! u
            = Some {| count := 1 + Z.of_nat (length ts); last_time := t0 |}).
  { cbn [attempts_at foldl]. fold (attempts_at ts u (increment t0 u rl)).
    by rewrite (attempts_at_within t0 ts u _ {| count := 1; last_time := t0 |})
      by (done || by apply increment_lookup_fresh). }
  split; [exact Hrec |]. split; intros t Ht.
  - destruct (check_limit_exceeded_existing t u _ _ Hrec) as [Hin _].
    rewrite Hin by done. f_equal. apply bool_decide_eq_true_2. cbn. lia.
  - destruct (check_limit_exceeded_existing t u _ _ Hrec) as [_ Hout].
    by apply Hout.
Qed.

Lemma burst_within_window_witness :
  attempts_at [0; 10; 20; 59000000] "og" ∅ !! "og"
    = Some {| count := 4; last_time := 0 |} ∧
  fst (check_limit_exceeded 60000001 "og"
         (attempts_at [0; 10; 20; 59000000] "og" ∅)) = Ok false.
Proof.
  destruct (burst_within_window 0 [10; 20; 59000000] "og" ∅)
    as (Hrec & _ & Hout).
  - apply lookup_empty.
  - repeat constructor; by vm_compute.
  - split; [exact Hrec | apply Hout; by vm_compute].
Defined.

Lemma foldl_scan_no_match (adapt : dbval → dbval) u rows acc :
  Forall (λ r : row, fst r ≠ u) rows →
  foldl (λ acc r, if String.eqb (fst r) u then adapt (snd r) else acc) acc rows
    = acc.
Proof.
  intros Hrows. revert acc. induction Hrows as [| r rows Hr _ IH]; intros acc.
  - done.
  - cbn. destruct (String.eqb_spec (fst r) u); [done | apply IH].
Qed.

Lemma scan_rows_no_match adapt u rows :
  Forall (λ r : row, fst r ≠ u) rows → scan_rows adapt u rows = DbBytes [].
Proof. apply foldl_scan_no_match. Qed.


Section WithBcrypt.
Context {bcrypt : Bcrypt}.

(** Every call of [check_is_legit_user] counts as an attempt of its
    username, whether it is accepted, rejected or ends in an exception of a
    backend, and no other username's record changes. *)
Theorem check_is_legit_user_counts_attempt env now user (rl : RateLimiter) :
  limiter (check_is_legit_user env now user rl)
    = increment now (username user) rl ∧
  ∀ v, username user ≠ v →
    limiter (check_is_legit_user env now user rl) !! v = rl !! v.
Proof.
  assert (Hl : limiter (check_is_legit_user env now user rl)
               = increment now (username user) rl).
  { unfold check_is_legit_user.
    destruct (check_limit_exceeded_total now (username user) rl) as [b ->].
    destruct b; [done |].
    destruct (check_sqlite_db_present env).
    - unfold verify.
      destruct (get_user_password_in_sqlite_db env (username user)) as [v|];
        [| done]. by destruct (is_empty_hash v).
    - destruct (check_postgresql_db_present env); [| done].
      unfold verify.
      destruct (get_user_password_in_postgresql_db env (username user)) as [v|];
        [| done]. by destruct (is_empty_hash v). }
  split; [exact Hl |]. intros v Hv. rewrite Hl.
  by apply increment_lookup_other.
Qed.

(** A username with no row in the table of the backend that answers
    (sqlite if present, else postgresql) is rejected with false, whatever
    the password. *)
Theorem unknown_username_rejected env now user (rl : RateLimiter) rows :
  sqlite_db env = Some rows ∨
    (sqlite_db env = None ∧ postgres_db env = PgUp rows) →
  Forall (λ r : row, fst r ≠ username user) rows →
  returned (check_is_legit_user env now user rl) = Ok false.
Proof.
  intros Henv Hrows. unfold check_is_legit_user.
  destruct (check_limit_exceeded_total now (username user) rl) as [b ->].
  destruct b; [done |].
  unfold check_sqlite_db_present, check_postgresql_db_present,
    get_user_password_in_sqlite_db, get_user_password_in_postgresql_db.
  destruct Henv as [-> | [-> ->]]; unfold verify;
    by rewrite scan_rows_no_match.
Qed.


(** The local store has priority: when the sqlite file is there, the
    outcome of [check_is_legit_user] does not depend on the remote store,
    which is neither probed nor queried. *)
Theorem sqlite_has_priority env pg now user (rl : RateLimiter) rows :
  sqlite_db env = Some rows →
  check_is_legit_user env now user rl
    = check_is_legit_user {| sqlite_db := Some rows; postgres_db := pg |}
        now user rl ∧
  (ProbePostgres ∉ db_trace (check_is_legit_user env now user rl)) ∧
  (QueryPostgres (username user)
     ∉ db_trace (check_is_legit_user env now user rl)).
Proof.
  intros Henv. unfold check_is_legit_user.
  destruct (check_limit_exceeded_total now (username user) rl) as [b ->].
  destruct b.
  { split; [done |]. cbn. split; apply not_elem_of_nil. }
  unfold check_sqlite_db_present, get_user_password_in_sqlite_db.
  rewrite Henv. cbn [sqlite_db].
  split; [done |]. unfold verify.
  destruct (is_empty_hash (scan_rows (λ v, v) (username user) rows)); cbn;
    split; intros Hin;
    repeat (apply elem_of_cons in Hin as [Hin | Hin]; [discriminate |]);
    by apply elem_of_nil in Hin.
Qed.

End WithBcrypt.

Lemma unknown_username_rejected_witness :
  returned (check_is_legit_user (bcrypt := plain_bcrypt) og_backends 0
              {| username := "eve"; password := "secret" |} ∅) = Ok false.
Proof.
  apply (unknown_username_rejected (bcrypt := plain_bcrypt) og_backends 0
           {| username := "eve"; password := "secret" |} ∅
           [("og", DbBytes (String.list_byte_of_string "secret"))]).
  - left. reflexivity.
  - repeat constructor. discriminate.
Defined.


Lemma sqlite_has_priority_witness :
  check_is_legit_user (bcrypt := plain_bcrypt) og_backends 0
      {| username := "og"; password := "secret" |} ∅
    = check_is_legit_user (bcrypt := plain_bcrypt)
        {| sqlite_db := sqlite_db og_backends; postgres_db := PgDown |} 0
        {| username := "og"; password := "secret" |} ∅.
Proof.
  apply (sqlite_has_priority (bcrypt := plain_bcrypt) og_backends PgDown 0
           {| username := "og"; password := "secret" |} ∅
           [("og", DbBytes (String.list_byte_of_string "secret"))]).
  reflexivity.
Defined.

End UserDbMore.

(** ** More on persistence *)
Module PersistenceMore.
Import Fs FsFacts Schemas Handler HandlerFacts RoundTrip.

Section WithLibs.
Context {libs : Libs} {polars : Polars}.

(** An action that leaves the file at [q] as it is, whether it returns or
    raises. *)
Definition keeps_file (q : Path) (old : bytes) {A : Type} (m : M FS A) : Prop :=
  ∀ fs, files fs !! q = Some old → files (snd (m fs)) !! q = Some old.

Lemma keeps_file_bind q old {A B} (m : M FS A) (k : A → M FS B) :
  keeps_file q old m → (∀ a, keeps_file q old (k a)) →
  keeps_file q old (bindM m k).
Proof.
  intros Hm Hk fs Hq. unfold bindM. specialize (Hm fs Hq).
  destruct (m fs) as [[a | e] fs1]; cbn in *; [by apply Hk | done].
Qed.

Lemma keeps_file_ret q old {A} (a : A) : keeps_file q old (ret a).
Proof. by intros fs Hq. Qed.

Lemma keeps_file_lift_result q old {A} (r : result A) :
  keeps_file q old (lift_result r).
Proof. by intros fs Hq. Qed.

Lemma keeps_file_save_image q old image name p mkdir :
  keeps_file q old (save_image image name p false mkdir).
Proof.
  unfold save_image. destruct image; [| apply keeps_file_ret].
  intros fs Hq. by apply save_image_as_jpg_file_keeps.
Qed.

Lemma keeps_file_save_dataframe q old df name jp pp :
  keeps_file q old (save_dataframe df name jp pp false).
Proof. intros fs Hq. by apply save_dataframe_keeps. Qed.

Lemma keeps_file_save_receipt_info q old (h : ImageHandler) :
  keeps_file q old (save_receipt_info h false).
Proof.
  unfold save_receipt_info, save_shop_info, save_items_info.
  apply keeps_file_bind; [| intros _];
    (destruct (extracted_receipt_info h); [| apply keeps_file_ret]);
    repeat (apply keeps_file_bind; [apply keeps_file_lift_result | intros ?]);
    apply keeps_file_save_dataframe.
Qed.

(** With [overwrite=False], saving a handler never changes a file that is
    already on disk: neither [ImageHandler.save] nor [save_receipt_info]
    touches it, whether they return or raise. In particular the frames
    [do_wrangle] saves cannot replace the ones [do_extract] wrote. *)
Theorem save_without_overwrite_keeps_files (h : ImageHandler) mkdir fs q old :
  files fs !! q = Some old →
  files (snd (save h mkdir false fs)) !! q = Some old ∧
  files (snd (save_receipt_info h false fs)) !! q = Some old.
Proof.
  intros Hq. split; [| by apply keeps_file_save_receipt_info].
  revert fs Hq. change (keeps_file q old (save h mkdir false)).
  unfold save, save_images, save_original_image, save_edited_image.
  apply keeps_file_bind.
  - apply keeps_file_bind.
    + apply keeps_file_bind; [apply keeps_file_lift_result | intros ?].
      apply keeps_file_save_image.
    + intros _.
      apply keeps_file_bind; [apply keeps_file_lift_result | intros ?].
      destruct (edited_image h); [| apply keeps_file_ret].
      apply keeps_file_save_image.
  - intros _. destruct (extracted_receipt_info h); [| apply keeps_file_ret].
    apply keeps_file_save_receipt_info.
Qed.

(** An action that only reads the file system. *)
Definition read_only {A : Type} (m : M FS A) : Prop := ∀ fs, snd (m fs) = fs.

Lemma read_only_bind {A B} (m : M FS A) (k : A → M FS B) :
  read_only m → (∀ a, read_only (k a)) → read_only (bindM m k).
Proof.
  intros Hm Hk fs. unfold bindM. specialize (Hm fs).
  destruct (m fs) as [[a | e] fs1]; cbn in *; subst fs1; [apply Hk | done].
Qed.

Lemma read_only_ret {A} (a : A) : read_only (ret (S := FS) a).
Proof. by intros fs. Qed.

Lemma read_only_raise {A} e : read_only (raise (S := FS) (A := A) e).
Proof. by intros fs. Qed.

Lemma read_only_lift_result {A} (r : result A) : read_only (lift_result r).
Proof. by intros fs. Qed.

Lemma read_only_gets {A} (f : FS → A) : read_only (gets f).
Proof. by intros fs. Qed.

Lemma read_only_read_file p : read_only (read_file p).
Proof.
  intros fs. unfold read_file. destruct (files fs !! p); [done |].
  by destruct (is_dir p fs).
Qed.

Ltac read_only_step :=
  match goal with
  | |- read_only (bindM _ _) => apply read_only_bind; [| intros ?]
  | |- read_only (ret _) => apply read_only_ret
  | |- read_only (raise _) => apply read_only_raise
  | |- read_only (lift_result _) => apply read_only_lift_result
  | |- read_only (gets _) => apply read_only_gets
  | |- read_only (read_file _) => apply read_only_read_file
  | |- read_only (match ?x with _ => _ end) => destruct x
  end.

Lemma read_only_from_target_directory dir : read_only (from_target_directory dir).
Proof.
  unfold from_target_directory, Image_open, pl_read_parquet. cbn zeta.
  repeat read_only_step.
Qed.

(** Loading never writes: [from_target_directory],
    [from_streamlit_uploaded_file] and [read_and_b64_encode_image] leave
    directories, files and the log exactly as they found them, whether they
    return a value or raise. *)
Theorem loading_never_writes dir uploaded_file settings p fs :
  snd (from_target_directory dir fs) = fs ∧
  snd (from_streamlit_uploaded_file uploaded_file settings fs) = fs ∧
  snd (read_and_b64_encode_image p fs) = fs.
Proof.
  split_and!.
  - apply read_only_from_target_directory.
  - revert fs. change (read_only (from_streamlit_uploaded_file uploaded_file settings)).
    unfold from_streamlit_uploaded_file. cbn zeta.
    apply read_only_bind; [apply read_only_gets |]. intros b.
    destruct b; [apply read_only_from_target_directory |].
    repeat read_only_step.
  - revert fs. change (read_only (read_and_b64_encode_image p)).
    unfold read_and_b64_encode_image, read_image_as_bytes.
    repeat read_only_step.
Qed.

Lemma add_dir_wf p fs :
  fs_wf fs → exists_ p fs = false → is_dir (parent p) fs = true →
  fs_wf (add_dir p fs).
Proof.
  intros [Hf Hd] Hex Hpar. apply is_dir_true in Hpar.
  pose proof (exists_false_lookup p fs Hex) as Hnone.
  split.
  - intros q data Hq. cbn in *. destruct (Hf q data Hq) as [Hqp Hqd].
    split; [apply elem_of_union; by right |].
    rewrite elem_of_union, elem_of_singleton. intros [-> | Hin]; [| done].
    congruence.
  - intros d Hin. cbn in *. apply elem_of_union in Hin as [Hin | Hin].
    + apply elem_of_singleton in Hin as ->. apply elem_of_union. by right.
    + apply elem_of_union. right. by apply Hd.
Qed.

Lemma put_file_wf p data fs :
  fs_wf fs → is_dir p fs = false → is_dir (parent p) fs = true →
  fs_wf (put_file p data fs).
Proof.
  intros [Hf Hd] Hnd Hpar. apply is_dir_true in Hpar. apply is_dir_false in Hnd.
  split; [| done]. cbn. by apply map_Forall_insert_2.
Qed.

(** An action that keeps the file system well formed. *)
Definition keeps_wf {A : Type} (m : M FS A) : Prop :=
  ∀ fs, fs_wf fs → fs_wf (snd (m fs)).

Lemma keeps_wf_bind {A B} (m : M FS A) (k : A → M FS B) :
  keeps_wf m → (∀ a, keeps_wf (k a)) → keeps_wf (bindM m k).
Proof.
  intros Hm Hk fs Hwf. unfold bindM. specialize (Hm fs Hwf).
  destruct (m fs) as [[a | e] fs1]; cbn in *; [by apply Hk | done].
Qed.

Lemma keeps_wf_read_only {A} (m : M FS A) : read_only m → keeps_wf m.
Proof. intros Hm fs Hwf. by rewrite Hm. Qed.

Lemma keeps_wf_mkdir p : keeps_wf (mkdir p).
Proof.
  intros fs Hwf. unfold mkdir. destruct (exists_ p fs) eqn:Hex; [done |].
  destruct (is_dir (parent p) fs) eqn:Hpar; [| done]. by apply add_dir_wf.
Qed.

Lemma keeps_wf_write_file p data : keeps_wf (write_file p data).
Proof.
  intros fs Hwf. unfold write_file. destruct (is_dir p fs) eqn:Hnd; [done |].
  destruct (is_dir (parent p) fs) eqn:Hpar; [| done]. by apply put_file_wf.
Qed.

Lemma keeps_wf_logger_warning r : keeps_wf (logger_warning r).
Proof. by intros fs Hwf. Qed.

Ltac keeps_wf_step :=
  match goal with
  | |- keeps_wf (bindM _ _) => apply keeps_wf_bind; [| intros ?]
  | |- keeps_wf (ret _) => apply keeps_wf_read_only, read_only_ret
  | |- keeps_wf (raise _) => apply keeps_wf_read_only, read_only_raise
  | |- keeps_wf (lift_result _) => apply keeps_wf_read_only, read_only_lift_result
  | |- keeps_wf (gets _) => apply keeps_wf_read_only, read_only_gets
  | |- keeps_wf (Fs.mkdir _) => apply keeps_wf_mkdir
  | |- keeps_wf (write_file _ _) => apply keeps_wf_write_file
  | |- keeps_wf (logger_warning _) => apply keeps_wf_logger_warning
  | |- keeps_wf (match ?x with _ => _ end) => destruct x
  end.

Lemma keeps_wf_save_image_as_jpg_file p image overwrite mkdir :
  keeps_wf (save_image_as_jpg_file p image overwrite mkdir).
Proof. unfold save_image_as_jpg_file. cbn zeta. repeat keeps_wf_step. Qed.

Lemma keeps_wf_save_dataframe df name jp pp overwrite :
  keeps_wf (save_dataframe df name jp pp overwrite).
Proof. unfold save_dataframe. repeat keeps_wf_step. Qed.

Lemma keeps_wf_save_receipt_info (h : ImageHandler) overwrite :
  keeps_wf (save_receipt_info h overwrite).
Proof.
  unfold save_receipt_info, save_shop_info, save_items_info.
  repeat first [apply keeps_wf_save_dataframe | keeps_wf_step].
Qed.

Lemma keeps_wf_save (h : ImageHandler) mkdir overwrite :
  keeps_wf (save h mkdir overwrite).
Proof.
  unfold save, save_images, save_original_image, save_edited_image,
    save_image.
  repeat first [ apply keeps_wf_save_image_as_jpg_file
               | apply keeps_wf_save_receipt_info | keeps_wf_step ].
Qed.

(** Without the stored original image there is nothing to load: when no
    component of the directory is a regular file and [original-image.jpg]
    does not exist in it (in particular when the directory itself does not
    exist), [from_target_directory] raises [FileNotFoundError] and changes
    nothing. *)
Theorem from_target_directory_missing_original dir fs :
  no_file_on dir fs = true →
  exists_ (joinpath dir "original-image.jpg") fs = false →
  from_target_directory dir fs = (Raise FileNotFoundError, fs).
Proof.
  intros _ Hex. unfold from_target_directory, Image_open. cbn zeta.
  change (Settings.original_image Settings.StoredFileNames_default)
    with "original-image.jpg".
  unfold bindM at 1. unfold bindM at 1. unfold read_file at 1.
  rewrite (exists_false_lookup _ _ Hex), (exists_false_is_dir _ _ Hex). done.
Qed.

(** [save_image_as_jpg_file] does not create directories recursively. With
    the working directory in place and the directory of the target missing,
    the call raises [FileNotFoundError] and changes nothing in two cases:
    [mkdir] is off; or [mkdir] is on and the directory above is missing too,
    with no regular file among its components. *)
Theorem save_image_as_jpg_file_missing_directory p image overwrite mkdir fs :
  is_dir [] fs = true →
  exists_ (parent p) fs = false →
  mkdir = false ∨
    (is_dir (parent (parent p)) fs = false ∧
     no_file_on (parent (parent p)) fs = true) →
  save_image_as_jpg_file p image overwrite mkdir fs
    = (Raise FileNotFoundError, fs).
Proof.
  intros _ Hdir Hcase.
  unfold save_image_as_jpg_file, bindM, gets, raise. cbn zeta.
  rewrite Hdir. cbn. destruct mkdir; cbn; [| done].
  destruct Hcase as [? | [Hgp _]]; [done |].
  unfold mkdir. by rewrite Hdir, Hgp.
Qed.

(** Uploading a file again after it was saved resumes it: the first
    [from_streamlit_uploaded_file] finds no target directory and builds a
    handler from the upload; once that handler is saved, the same upload
    finds the directory and gets the handler loaded from it, with the same
    target directory, the stored bytes and stored file name, and without
    writing anything. *)
Theorem reupload_resumes uploaded_file settings img fs fs1 :
  let dir := get_image_dir_name settings
               (get_image_hash (upload_value uploaded_file))
               (upload_name uploaded_file) in
  let first := mk_ImageHandler dir img (upload_value uploaded_file)
                 (upload_name uploaded_file) in
  fs_wf fs →
  exists_ dir fs = false →
  pil_open (upload_value uploaded_file) = Ok img →
  save first true false fs = (Ok tt, fs1) →
  (∀ data, pil_save img = Ok data → ∃ img', pil_open data = Ok img') →
  from_streamlit_uploaded_file uploaded_file settings fs = (Ok first, fs) ∧
  ∃ data img',
    pil_save img = Ok data ∧ pil_open data = Ok img' ∧
    from_streamlit_uploaded_file uploaded_file settings fs1
      = (Ok (mk_ImageHandler dir img' data "original-image.jpg"), fs1).
Proof.
  intros dir first Hwf Hdir Himg Hsave Hpil. split.
  { unfold from_streamlit_uploaded_file, bindM, gets, lift_result, ret.
    cbn zeta. fold dir. by rewrite Hdir, Himg. }
  destruct (save_into_new_directory first true false fs fs1 Hwf eq_refl Hdir Hsave)
    as (data & Hdata & Ho & Hnd & He & Hr).
  pose proof (keeps_wf_save first true false fs Hwf) as Hwf1.
  rewrite Hsave in Hwf1. cbn [snd] in Hwf1.
  subst first.
  cbn [target_directory original_image edited_image extracted_receipt_info
       mk_ImageHandler] in Hdata, Ho, Hnd, He, Hr.
  destruct Hr as [Hs Hi].
  destruct (Hpil data Hdata) as [img' Himg'].
  exists data, img'. split; [done |]. split; [done |].
  destruct (fs_wf_file fs1 _ data Hwf1 Ho) as (Hpar & _ & _).
  rewrite parent_joinpath in Hpar.
  unfold from_streamlit_uploaded_file, bindM, gets. cbn zeta. fold dir.
  unfold exists_ at 1. rewrite Hpar. cbn [orb].
  apply (from_target_directory_on_disk dir fs1 data img' None None Ho Himg' Hnd).
  - by rewrite He.
  - by rewrite Hs, Hi.
Qed.

End WithLibs.

Lemma reupload_resumes_witness :
  let up := {| upload_name := "test_image.jpg";
               upload_value := [Byte.xff; Byte.xd8] |} in
  let settings := {| Settings.extraction_artifacts_dir := ["data"] |} in
  let first := mk_ImageHandler (libs := Sample.libs) ["data"; "test_image.jpg-00"]
                 [Byte.xff; Byte.xd8] [Byte.xff; Byte.xd8] "test_image.jpg" in
  from_streamlit_uploaded_file (polars := Sample.polars) up settings Sample.disk
    = (Ok first, Sample.disk) ∧
  ∃ h', fst (from_streamlit_uploaded_file (polars := Sample.polars) up settings
               (snd (save (polars := Sample.polars) first true false Sample.disk)))
        = Ok h' ∧
        original_file_name h' = "original-image.jpg" ∧
        target_directory h' = ["data"; "test_image.jpg-00"].
Proof.
  cbn zeta.
  destruct (reupload_resumes (polars := Sample.polars)
              {| upload_name := "test_image.jpg";
                 upload_value := [Byte.xff; Byte.xd8] |}
              {| Settings.extraction_artifacts_dir := ["data"] |}
              [Byte.xff; Byte.xd8] Sample.disk
              (snd (save (polars := Sample.polars)
                      (mk_ImageHandler (libs := Sample.libs)
                         ["data"; "test_image.jpg-00"]
                         [Byte.xff; Byte.xd8] [Byte.xff; Byte.xd8]
                         "test_image.jpg") true false Sample.disk)))
    as (Hfirst & data & img' & _ & _ & Hsecond).
  - exact sample_disk_wf.
  - by vm_compute.
  - reflexivity.
  - by vm_compute.
  - intros data _. by exists data.
  - split; [exact Hfirst |]. eexists. rewrite Hsecond. done.
Defined.

Lemma from_target_directory_missing_original_witness :
  from_target_directory (polars := Sample.polars) ["data"; "nowhere"] Sample.disk
    = (Raise FileNotFoundError, Sample.disk).
Proof.
  apply (from_target_directory_missing_original (polars := Sample.polars)).
  - by vm_compute.
  - by vm_compute.
Defined.

Lemma save_image_as_jpg_file_missing_directory_witness :
  save_image_as_jpg_file (libs := Sample.libs) ["data"; "a"; "b"; "c.jpg"]
      (ArgPIL Sample.photo) true true Sample.disk
    = (Raise FileNotFoundError, Sample.disk).
Proof.
  apply (save_image_as_jpg_file_missing_directory (libs := Sample.libs)).
  - by vm_compute.
  - by vm_compute.
  - right. split; by vm_compute.
Defined.

Lemma save_without_overwrite_keeps_files_witness :
  files (snd (save (polars := Sample.polars) Sample.handler true false
                Sample.disk)) !! ["data"; "old.jpg"] = Some [Byte.x01].
Proof.
  apply (save_without_overwrite_keeps_files (polars := Sample.polars)
           Sample.handler true Sample.disk ["data"; "old.jpg"] [Byte.x01]).
  by vm_compute.
Defined.

End PersistenceMore.

(** ** library/names.py *)
Module Names.

Definition NAME_MAP : gmap string string :=
  <["BIOD BANANEN" := "BIO BANANEN"]>
    (<["BIOD Paprika Mix" := "BIO Paprika Mix"]> ∅).

(** [NAME_MAP.get(raw_name, raw_name)] *)
Definition assign_normalized_name (raw_name : string) : string :=
  default raw_name (NAME_MAP !! raw_name).

End Names.

(** ** library/utils.py: column order of the exports *)
Module Columns.
Section WithColumn.
(** The values of one column. *)
Context {C : Type}.

(** A frame as its columns in order, each under its name; polars keeps the
    names distinct. *)
Definition frame : Type := list (string * C).

(** [df.columns] *)
Definition columns (df : frame) : list string := fst <$> df.

Fixpoint get_column (name : string) (df : frame) : option C :=
  match df with
  | [] => None
  | (n, c) :: df' => if String.eqb n name then Some c else get_column name df'
  end.

(** A name polars takes literally: [select] expands ["*"] to all columns
    and a name that starts with [^] and ends with [$] to the columns the
    regular expression matches. *)
Definition plain_name (s : string) : bool :=
  negb (String.eqb s "*") &&
  negb (String.prefix "^" s &&
        String.eqb (String.substring (String.length s - 1) 1 s) "$").

(** [df.select(names)] for names that are all [plain_name]: the named
    columns in the order asked for; a name that is no column is polars'
    [ColumnNotFoundError]. *)
Fixpoint select (names : list string) (df : frame) : result frame :=
  match names with
  | [] => Ok []
  | n :: names' =>
      match get_column n df with
      | None => Raise ExternalError
      | Some c =>
          match select names' df with
          | Ok df' => Ok ((n, c) :: df')
          | Raise e => Raise e
          end
      end
  end.

(** [put_id_col_at_end] *)
Definition put_id_col_at_end (df : frame) (id_col : string) : result frame :=
  let new_cols :=
    (List.filter (λ c, negb (String.eqb c id_col)) (columns df) ++ [id_col])%list in
  select new_cols df.

End WithColumn.
End Columns.

(** ** Names, columns and the receipt schema *)
Module SchemaFacts.
Import Schemas Names Columns.

(** [assign_normalized_name] leaves every name alone that is no key of
    [NAME_MAP], and normalising twice is the same as normalising once: no
    pretty name is itself a key. *)
Theorem assign_normalized_name_idempotent raw_name :
  (NAME_MAP !! raw_name = None → assign_normalized_name raw_name = raw_name) ∧
  assign_normalized_name (assign_normalized_name raw_name)
    = assign_normalized_name raw_name.
Proof.
  split.
  - intros Hn. unfold assign_normalized_name. by rewrite Hn.
  - unfold assign_normalized_name, NAME_MAP.
    destruct (decide (raw_name = "BIOD BANANEN")) as [-> | H1]; [done |].
    rewrite (lookup_insert_ne _ "BIOD BANANEN" raw_name) by done.
    destruct (decide (raw_name = "BIOD Paprika Mix")) as [-> | H2]; [done |].
    rewrite (lookup_insert_ne _ "BIOD Paprika Mix" raw_name) by done.
    rewrite lookup_empty. cbn.
    rewrite (lookup_insert_ne _ "BIOD BANANEN" raw_name) by done.
    rewrite (lookup_insert_ne _ "BIOD Paprika Mix" raw_name) by done.
    by rewrite lookup_empty.
Qed.

Lemma assign_normalized_name_idempotent_witness :
  assign_normalized_name "Mini Romanasalat" = "Mini Romanasalat".
Proof.
  destruct (assign_normalized_name_idempotent "Mini Romanasalat") as [Hfix _].
  apply Hfix. by vm_compute.
Defined.

(** The category strings round-trip: every member is found again from its
    value, a string that is accepted is the value of the member it yields,
    and no two members share a value. *)
Theorem CategoryEnum_value_round_trip :
  (∀ c, CategoryEnum_of_value (CategoryEnum_value c) = Some c) ∧
  (∀ v c, CategoryEnum_of_value v = Some c → CategoryEnum_value c = v) ∧
  (∀ c1 c2, CategoryEnum_value c1 = CategoryEnum_value c2 → c1 = c2).
Proof.
  assert (H1 : ∀ c, CategoryEnum_of_value (CategoryEnum_value c) = Some c)
    by (by intros []).
  split; [exact H1 |]. split.
  - intros v c Hf. unfold CategoryEnum_of_value in Hf.
    apply List.find_some in Hf as [_ Heq]. by apply String.eqb_eq in Heq.
  - intros c1 c2 Heq. pose proof (H1 c1) as Ha. rewrite Heq, H1 in Ha.
    by injection Ha.
Qed.

Lemma Items_of_rows_bad_category (rows : list ItemRow) r v :
  r ∈ rows → icol_category r = Some v → CategoryEnum_of_value v = None →
  Items_of_rows rows = Raise ValidationError.
Proof.
  intros Hin Hc Hv. induction rows as [| r0 rows IH]; [by apply elem_of_nil in Hin |].
  cbn. apply elem_of_cons in Hin as [<- | Hin].
  - unfold Item_of_row. by rewrite Hc, Hv.
  - rewrite (IH Hin). unfold Item_of_row.
    destruct (icol_category r0) as [v0|]; [| done].
    by destruct (CategoryEnum_of_value v0).
Qed.

Section WithLibs.
Context {libs : Libs}.

(** Frames back to a receipt: the two frames that a receipt whose counts
    all fit a 64-bit integer converts to give that receipt back; a shop
    frame without rows is an [IndexError]; an item row whose category is no
    member value makes the whole conversion fail with a
    [ValidationError]. *)
Theorem polars_info_dataframes_to_pydantic_behaviour :
  (∀ info,
     counts_fit info = true →
     polars_info_dataframes_to_pydantic
       (ShopFrame (convert_to_dataframe_shop info))
       (ItemsFrame (convert_to_dataframe_items info)) = Ok info) ∧
  (∀ items, polars_info_dataframes_to_pydantic (ShopFrame []) items
            = Raise IndexError) ∧
  (∀ shop_row shop_rows rows r v,
     r ∈ rows → icol_category r = Some v → CategoryEnum_of_value v = None →
     polars_info_dataframes_to_pydantic
       (ShopFrame (shop_row :: shop_rows)) (ItemsFrame rows)
       = Raise ValidationError).
Proof.
  split_and!.
  - intros [[n d t tot] its] _.
    unfold polars_info_dataframes_to_pydantic, convert_to_dataframe_items. cbn.
    by rewrite RoundTrip.Items_of_rows_model_dump.
  - done.
  - intros shop_row shop_rows rows r v Hin Hc Hv.
    unfold polars_info_dataframes_to_pydantic. cbn.
    by rewrite (Items_of_rows_bad_category rows r v).
Qed.

End WithLibs.

Lemma polars_info_dataframes_to_pydantic_behaviour_witness :
  polars_info_dataframes_to_pydantic (libs := Sample.libs)
    (ShopFrame (convert_to_dataframe_shop Sample.receipt))
    (ItemsFrame (convert_to_dataframe_items Sample.receipt))
    = Ok Sample.receipt ∧
  polars_info_dataframes_to_pydantic (libs := Sample.libs)
    (ShopFrame (convert_to_dataframe_shop Sample.receipt))
    (ItemsFrame [ {| icol_name := "Brot"; icol_price := 1.5%float;
                     icol_count := None; icol_mass := None; icol_tax := None;
                     icol_category := Some "Bakery" |} ])
    = Raise ValidationError.
Proof.
  destruct (polars_info_dataframes_to_pydantic_behaviour (libs := Sample.libs))
    as (Hback & _ & Hbad).
  split.
  - apply Hback. by vm_compute.
  - eapply Hbad; [apply list_elem_of_here | reflexivity | by vm_compute].
Defined.

Section WithColumn.
Context {C : Type}.

Lemma get_column_elem (df : frame (C := C)) n c :
  NoDup (columns df) → (n, c) ∈ df → get_column n df = Some c.
Proof.
  induction df as [| [n0 c0] df IH]; intros Hnd Hin;
    [by apply elem_of_nil in Hin |].
  cbn in Hnd. apply NoDup_cons in Hnd as [Hn0 Hnd].
  cbn. apply elem_of_cons in Hin as [[= -> ->] | Hin].
  - by rewrite String.eqb_refl.
  - destruct (String.eqb_spec n0 n) as [-> | Hne]; [| by apply IH].
    exfalso. apply Hn0. unfold columns. apply list_elem_of_fmap.
    by exists (n, c).
Qed.

Lemma get_column_None (df : frame (C := C)) n :
  n ∉ columns df → get_column n df = None.
Proof.
  induction df as [| [n0 c0] df IH]; intros Hn; [done |].
  cbn in *. apply not_elem_of_cons in Hn as [Hne Hn].
  destruct (String.eqb_spec n0 n) as [-> | _]; [done | by apply IH].
Qed.

Lemma select_sub (df sub : frame (C := C)) :
  NoDup (columns df) → Forall (λ x, x ∈ df) sub →
  select (columns sub) df = Ok sub.
Proof.
  intros Hnd Hsub. induction Hsub as [| [n c] sub Hx _ IH]; [done |].
  change (columns ((n, c) :: sub)) with (n :: columns sub).
  cbn [select]. by rewrite (get_column_elem df n c), IH.
Qed.

Lemma select_missing (df : frame (C := C)) names n :
  n ∉ columns df → select (names ++ [n]) df = Raise ExternalError.
Proof.
  intros Hn. induction names as [| m names IH]; cbn.
  - by rewrite get_column_None.
  - rewrite IH. by destruct (get_column m df).
Qed.

Lemma columns_filter (df : frame (C := C)) id_col :
  List.filter (λ c, negb (String.eqb c id_col)) (columns df)
    = columns (List.filter (λ x, negb (String.eqb (fst x) id_col)) df).
Proof.
  induction df as [| [n c] df IH]; [done |].
  change (columns ((n, c) :: df)) with (n :: columns df).
  cbn [List.filter fst]. rewrite IH.
  by destruct (String.eqb n id_col).
Qed.

Lemma elem_of_others (df : frame (C := C)) id_col x :
  x ∈ List.filter (λ x, negb (String.eqb (fst x) id_col)) df
  ↔ x ∈ df ∧ fst x ≠ id_col.
Proof.
  rewrite list_elem_of_In, List.filter_In, <- list_elem_of_In, negb_true_iff.
  by rewrite String.eqb_neq.
Qed.

Lemma put_id_col_at_end_ok (df : frame (C := C)) id_col c :
  NoDup (columns df) → (id_col, c) ∈ df →
  put_id_col_at_end df id_col
    = Ok (List.filter (λ x, negb (String.eqb (fst x) id_col)) df
            ++ [(id_col, c)])%list.
Proof.
  intros Hnd Hx. unfold put_id_col_at_end. cbn zeta. rewrite columns_filter.
  change [id_col] with (columns [(id_col, c)]).
  unfold columns at 1 2. rewrite <- fmap_app.
  apply select_sub; [done |]. apply Forall_app. split.
  - apply Forall_forall. intros x Hxr. by apply elem_of_others in Hxr as [? _].
  - by repeat constructor.
Qed.

Lemma filter_others_twice (df : frame (C := C)) id_col c :
  List.filter (λ x, negb (String.eqb (fst x) id_col))
    (List.filter (λ x, negb (String.eqb (fst x) id_col)) df ++ [(id_col, c)])%list
  = List.filter (λ x, negb (String.eqb (fst x) id_col)) df.
Proof.
  rewrite List.filter_app. cbn. rewrite String.eqb_refl. cbn.
  rewrite app_nil_r. induction df as [| [n c0] df IH]; [done |].
  cbn. destruct (String.eqb n id_col) eqn:Hn; cbn; [done |].
  by rewrite Hn, IH.
Qed.

(** [put_id_col_at_end] on a frame with distinct column names, where
    [id_col] and the column names are names polars takes literally: when
    [id_col] is no column the call raises; otherwise it returns the frame
    with [id_col] moved to the last place, the other columns in their old
    order, every column still there with its values and none added; and
    applying it again changes nothing. *)
Theorem put_id_col_at_end_behaviour (df : frame (C := C)) id_col :
  NoDup (columns df) →
  forallb plain_name (id_col :: columns df) = true →
  (id_col ∉ columns df → put_id_col_at_end df id_col = Raise ExternalError) ∧
  (id_col ∈ columns df →
     ∃ df',
       put_id_col_at_end df id_col = Ok df' ∧
       columns df'
         = (List.filter (λ c, negb (String.eqb c id_col)) (columns df)
              ++ [id_col])%list ∧
       (∀ x, x ∈ df' ↔ x ∈ df) ∧
       put_id_col_at_end df' id_col = Ok df').
Proof.
  intros Hnd _. split.
  - intros Hn. unfold put_id_col_at_end. by apply select_missing.
  - intros Hin. unfold columns in Hin.
    apply list_elem_of_fmap in Hin as ([n c] & Hn & Hx). cbn in Hn. subst n.
    set (rest := List.filter (λ x, negb (String.eqb (fst x) id_col)) df).
    assert (Hcols : columns (rest ++ [(id_col, c)])%list
              = (List.filter (λ c0, negb (String.eqb c0 id_col)) (columns df)
                   ++ [id_col])%list).
    { rewrite columns_filter. unfold columns. by rewrite fmap_app. }
    exists (rest ++ [(id_col, c)])%list. split_and!.
    + by apply put_id_col_at_end_ok.
    + exact Hcols.
    + intros x. unfold rest.
      rewrite elem_of_app, elem_of_others, list_elem_of_singleton. split.
      * intros [[? _] | ->]; done.
      * intros Hxd. destruct (decide (fst x = id_col)) as [Heq | Hne];
          [| by left].
        right. destruct x as [n0 c0]. cbn in Heq. subst n0.
        pose proof (get_column_elem df id_col c Hnd Hx) as H1.
        pose proof (get_column_elem df id_col c0 Hnd Hxd) as H2.
        congruence.
    + rewrite (put_id_col_at_end_ok _ id_col c).
      * unfold rest. by rewrite filter_others_twice.
      * rewrite Hcols. apply NoDup_app. split_and!.
        -- apply NoDup_ListNoDup, List.NoDup_filter, NoDup_ListNoDup, Hnd.
        -- intros n Hn1 Hn2. apply list_elem_of_singleton in Hn2 as ->.
           apply list_elem_of_In, List.filter_In in Hn1 as [_ Hn1].
           by rewrite String.eqb_refl in Hn1.
        -- apply NoDup_singleton.
      * apply elem_of_app. right. by apply list_elem_of_singleton.
Qed.

End WithColumn.

Lemma put_id_col_at_end_behaviour_witness :
  put_id_col_at_end [("id", [1; 2]); ("name", [7; 8]); ("age", [25; 30])] "id"
    = Ok [("name", [7; 8]); ("age", [25; 30]); ("id", [1; 2])] ∧
  put_id_col_at_end [("name", [7; 8]); ("age", [25; 30])] "id"
    = Raise ExternalError.
Proof.
  split.
  - destruct (put_id_col_at_end_behaviour
                [("id", [1; 2]); ("name", [7; 8]); ("age", [25; 30])] "id")
      as [_ Hin].
    + apply (bool_decide_unpack _). by vm_compute.
    + by vm_compute.
    + destruct Hin as (df' & Hput & _); [| rewrite Hput; by vm_compute in Hput].
      apply (bool_decide_unpack _). by vm_compute.
  - apply (put_id_col_at_end_behaviour
             [("name", [7; 8]); ("age", [25; 30])] "id").
    + apply (bool_decide_unpack _). by vm_compute.
    + by vm_compute.
    + apply (bool_decide_unpack _). by vm_compute.
Defined.

End SchemaFacts.
